(** * Data-Stream-Counting: exact, Morris and Frequent-Count counters

    A shallow embedding of [src/algorithms/exact_counter.py],
    [src/algorithms/morris_counter.py] and
    [src/algorithms/frequent_counter.py], and the properties of the
    specification that concern them.

    Conventions of the embedding:
    - a Python [Dict[str, int]] is a finite map [gmap string Z] (exponents of
      the Morris counter, which are only ever written by [= 0] and [+= 1],
      are [gmap string N]); [len(d)] is [size], [d.get(k, 0)] is
      [default 0 (d !! k)], [d.items()] is [map_to_list d]. A dictionary
      yields its keys in insertion order and a [gmap] in an order of its
      own; the two places that iterate over a table, the decrement step and
      [sorted], are shown not to depend on that order
      ([decrement_loops_lookup], [sorted_order_irrelevant]);
    - a Python [int] is a [Z]; nothing wraps around;
    - a Python [str] is a [string], the bytes of its UTF-8 encoding, on
      which the order of code points is the order of the byte strings;
    - a stream is the finite [list string] that the generator yields;
    - the value returned by [random.random()] is an explicit argument of the
      Morris update, a rational number;
    - an exception is a value of [exn], carried by [outcome]. *)

From Stdlib Require Import ZArith NArith QArith String OrderedTypeEx Lia.
From stdpp Require Import base gmap strings list fin_maps sorting.

Close Scope Q_scope.

(** ** Python values shared by the three counters *)

Inductive exn : Type :=
  | KeyError
  | OverflowError.

Inductive outcome (A : Type) : Type :=
  | Returns (a : A)
  | Raises (e : exn).
Arguments Returns {A} a.
Arguments Raises {A} e.

Definition rejected {A} (r : outcome A) : Prop :=
  match r with
  | Returns _ => False
  | Raises _ => True
  end.

Module Py.

(** The sort key of the three [get_top_n]: [lambda x: (-x[1], x[0])]. *)
Definition sort_key (x : string * Z) : Z * string := (- x.2, x.1)%Z.

(** Python's [<] on 2-tuples: the first components decide unless they are
    equal, then the second ones do. *)
Definition tuple_ltb (a b : Z * string) : bool :=
  if (a.1 =? b.1)%Z then String.ltb a.2 b.2 else (a.1 <? b.1)%Z.

(** [sorted] only ever asks whether one key is smaller than another; [x]
    may stay in front of [y] when the key of [y] is not smaller. *)
Definition key_le (x y : string * Z) : Prop :=
  tuple_ltb (sort_key y) (sort_key x) = false.

Global Instance key_le_dec x y : Decision (key_le x y).
Proof. unfold key_le. apply _. Defined.

(** [sorted(items, key=lambda x: (-x[1], x[0]))]. *)
Definition sorted (items : list (string * Z)) : list (string * Z) :=
  merge_sort key_le items.

(** The slice [l[:n]]: a negative [n] counts from the end of the list. *)
Definition slice_to {A} (n : Z) (l : list A) : list A :=
  if (0 <=? n)%Z then take (Z.to_nat n) l
  else take (Z.to_nat (Z.of_nat (length l) + n)) l.

(** The order the specification asks of a ranking: count descending, ties
    by item ascending. *)
Definition ranked_before (x y : string * Z) : Prop :=
  (y.2 < x.2)%Z \/ (x.2 = y.2 /\ String.leb x.1 y.1 = true).

(** Length of [l[:n]] for a list of [len] entries. *)
Definition slice_length (n : Z) (len : nat) : Z :=
  if (0 <=? n)%Z then Z.min n (Z.of_nat len) else Z.max 0 (Z.of_nat len + n).


End Py.

(** ** ExactCounter *)

Module ExactCounter.

(** [__init__]: [self.counts = {}]. *)
Definition init : gmap string Z := ∅.

Definition process (item : string) (counts : gmap string Z) : gmap string Z :=
  match counts !! item with
  | Some c => <[item := (c + 1)%Z]> counts
  | None => <[item := 1%Z]> counts
  end.

Definition query (item : string) (counts : gmap string Z) : Z :=
  default 0%Z (counts !! item).

Definition get_top_n (n : Z) (counts : gmap string Z) : list (string * Z) :=
  Py.slice_to n (Py.sorted (map_to_list counts)).

(** [for actor in stream: counter.process(actor)]. *)
Definition process_all (stream : list string) (counts : gmap string Z)
  : gmap string Z :=
  foldl (fun c item => process item c) counts stream.

End ExactCounter.

(** ** FrequentCounter *)

Module FrequentCounter.

Record t : Type := mk { capacity : Z; counts : gmap string Z }.

(** [__init__]: stores [capacity] as given and starts with an empty table. *)
Definition init (capacity : Z) : t := {| capacity := capacity; counts := ∅ |}.

(** The constructor call [FrequentCounter(capacity=c)]: it runs [__init__],
    whose body has no [raise]. *)
Definition new (capacity : Z) : outcome t := Returns (init capacity).

(** Body of the first loop of the decrement step:
    [self.counts[key] -= 1], and the key is noted when it reached 0. *)
Definition decrement_key (key : string) (acc : gmap string Z * list string)
  : gmap string Z * list string :=
  let counts' := alter (fun c => (c - 1)%Z) key acc.1 in
  (counts', if decide (counts' !! key = Some 0%Z) then acc.2 ++ [key] else acc.2).

(** The first loop, [for key in self.counts], over the keys in the order
    [keys]. *)
Definition decrement_pass (keys : list string) (counts : gmap string Z)
  : gmap string Z * list string :=
  foldl (fun acc key => decrement_key key acc) (counts, []) keys.

(** Second loop: [del self.counts[key]] for every noted key. *)
Definition remove_pass (items_to_remove : list string) (counts : gmap string Z)
  : gmap string Z :=
  foldl (fun c key => delete key c) counts items_to_remove.

Definition decrement_step (counts : gmap string Z) : gmap string Z :=
  let r := decrement_pass (map_to_list counts).*1 counts in
  remove_pass r.2 r.1.

Definition process (item : string) (self : t) : t :=
  match counts self !! item with
  | Some c =>
      {| capacity := capacity self; counts := <[item := (c + 1)%Z]> (counts self) |}
  | None =>
      if (Z.of_nat (size (counts self)) <? capacity self)%Z
      then {| capacity := capacity self; counts := <[item := 1%Z]> (counts self) |}
      else {| capacity := capacity self; counts := decrement_step (counts self) |}
  end.

Definition query (item : string) (self : t) : Z :=
  default 0%Z (counts self !! item).

Definition get_top_n (n : Z) (self : t) : list (string * Z) :=
  Py.slice_to n (Py.sorted (map_to_list (counts self))).

Definition process_all (stream : list string) (self : t) : t :=
  foldl (fun c item => process item c) self stream.

(** What the two loops of the decrement step leave of one entry. *)
Definition decremented (c : Z) : option Z :=
  if decide (c = 1%Z) then None else Some (c - 1)%Z.

(** Sum of the stored counts. *)
Definition sum_counts (counts : gmap string Z) : Z :=
  map_fold (fun _ c acc => (c + acc)%Z) 0%Z counts.

(** The items currently in the table, and the sum of their estimates. *)
Definition tracked (self : t) : list string := (map_to_list (counts self)).*1.

Definition sum_of_queries (self : t) : Z :=
  foldr Z.add 0%Z ((fun x => query x self) <$> tracked self).

End FrequentCounter.

(** ** MorrisCounter *)

Module MorrisCounter.

Definition init : gmap string N := ∅.

(** [1.0 / (2 ** k)]. The integer power is exact; converting it to a float
    is exact too as long as it succeeds, which is for [k < 1024], and then
    so is the quotient, a power of two that a float represents. *)
Definition probability (k : N) : Q := (1 / inject_Z (2 ^ Z.of_N k))%Q.

(** Largest exponent whose power of two still converts to a float; from
    [2 ** 1024] on the conversion raises [OverflowError]. *)
Definition max_float_exponent : N := 1023%N.

(** [random.random() < probability], on the drawn value [u]. *)
Definition draw_below (u p : Q) : bool :=
  match (u ?= p)%Q with
  | Lt => true
  | _ => false
  end.

(** One call of [process]; [u] is the value that [random.random()] returns
    in it. The table the call leaves behind is returned also when the call
    raises. *)
Definition process (u : Q) (item : string) (counts : gmap string N)
  : gmap string N * outcome unit :=
  let counts :=
    match counts !! item with
    | Some _ => counts
    | None => <[item := 0%N]> counts
    end in
  match counts !! item with
  | None => (counts, Raises KeyError)
  | Some k =>
      if (max_float_exponent <? k)%N then (counts, Raises OverflowError)
      else if draw_below u (probability k)
           then (<[item := (k + 1)%N]> counts, Returns tt)
           else (counts, Returns tt)
  end.

(** The stored exponent, as [query] reads it: [self.counts.get(item, 0)]. *)
Definition exponent (item : string) (counts : gmap string N) : N :=
  default 0%N (counts !! item).

Definition query (item : string) (counts : gmap string N) : Z :=
  (2 ^ Z.of_N (exponent item counts) - 1)%Z.

(** [[(actor, self.query(actor)) for actor in self.counts]]. *)
Definition estimated_counts (counts : gmap string N) : list (string * Z) :=
  (fun actor => (actor, query actor counts)) <$> (map_to_list counts).*1.

Definition get_top_n (n : Z) (counts : gmap string N) : list (string * Z) :=
  Py.slice_to n (Py.sorted (estimated_counts counts)).

(** A run: the calls of [process] in order, each with its item and its
    draw; the first call that raises ends the run. *)
Fixpoint process_all (calls : list (string * Q)) (counts : gmap string N)
  : gmap string N * outcome unit :=
  match calls with
  | [] => (counts, Returns tt)
  | (item, u) :: rest =>
      match process u item counts with
      | (counts', Returns _) => process_all rest counts'
      | (counts', Raises e) => (counts', Raises e)
      end
  end.

End MorrisCounter.

(** ** What [get_top_n] owes its callers *)


(** The first entry of a ranking has a count that no entry of [items]
    exceeds. *)
Definition head_dominates (items result : list (string * Z)) : Prop :=
  match result with
  | [] => True
  | p :: _ => Forall (fun q => (q.2 <= p.2)%Z) items
  end.

(** ** Streams *)

(** Number of occurrences of [x] in a stream. *)
Definition occurrences (x : string) (stream : list string) : Z :=
  Z.of_nat (count_occ string_dec stream x).

(** ** Invariants of the Frequent-Count table *)

(** The table holds at most [capacity] entries, all of them positive. *)
Definition frequent_bounded (fc : FrequentCounter.t) : Prop :=
  (Z.of_nat (size (FrequentCounter.counts fc)) <= FrequentCounter.capacity fc)%Z
  /\ map_Forall (fun _ c => (0 < c)%Z) (FrequentCounter.counts fc).

(** The accounting behind the Misra-Gries bound, for a counter of capacity
    [k] that has consumed the items [seen] and taken the decrement step [d]
    times: each decrement step spends [k] stored units and the arriving
    item, and an estimate lags the true count by at most [d]. *)
Definition misra_gries (k : Z) (seen : list string) (d : Z)
    (fc : FrequentCounter.t) : Prop :=
  FrequentCounter.capacity fc = k
  /\ frequent_bounded fc
  /\ (0 <= d)%Z
  /\ (FrequentCounter.sum_counts (FrequentCounter.counts fc) + d * (k + 1)
      = Z.of_nat (length seen))%Z
  /\ forall x, (occurrences x seen <= FrequentCounter.query x fc + d)%Z.

(** ** Passes over a stream *)

(** One pass of the harness over the stream with a new FrequentCounter
    ([main.py], [run_frequent_experiment]):
    [fc_algo = FrequentCounter(capacity=cap)], then [fc_algo.process(actor)]
    for every actor of the stream. *)
Definition frequent_pass (capacity : Z) (stream : list string) : FrequentCounter.t :=
  FrequentCounter.process_all stream (FrequentCounter.init capacity).

(** The stream of the Frequent-Count scenario of the specification. *)
Definition scenario_stream : list string := ["A"; "A"; "B"; "C"; "A"].

(** ** The harness ([main.py]) *)

(** [DISPLAY_TOP_N] and [FREQUENT_CAPACITIES], the module constants. *)
Definition DISPLAY_TOP_N : Z := 15%Z.
Definition FREQUENT_CAPACITIES : list Z :=
  [100; 500; 1000; 2500; 3500; 44000]%Z.

(** The dictionary comprehension [{name: count for name, count in pairs}]:
    the pairs are stored in order, a later pair replaces an earlier one with
    the same name. *)
Definition dict_of_pairs (pairs : list (string * Z)) : gmap string Z :=
  foldl (fun d p => <[p.1 := p.2]> d) ∅ pairs.

(** [run_exact_benchmark], without the timing and the printing: one pass of
    an ExactCounter over the stream, its top [DISPLAY_TOP_N], and the
    dictionary made of it. *)
Definition run_exact_benchmark (stream : list string)
  : list (string * Z) * gmap string Z :=
  let exact_counter := ExactCounter.process_all stream ExactCounter.init in
  let top_n_list := ExactCounter.get_top_n DISPLAY_TOP_N exact_counter in
  (top_n_list, dict_of_pairs top_n_list).

(** [results_by_capacity] of [run_frequent_experiment]: for each capacity
    in turn, a new counter fed the whole stream and stored under the
    capacity. *)
Definition results_by_capacity (capacities : list Z) (stream : list string)
  : gmap Z FrequentCounter.t :=
  foldl (fun d cap => <[cap := frequent_pass cap stream]> d) ∅ capacities.

(** One row of Table 2: the name, its real count, and the estimate
    [results_by_capacity[cap].query(name)] for each capacity; a capacity
    that is not a key of the dictionary is a [KeyError]. *)
Definition frequent_row (capacities : list Z) (results : gmap Z FrequentCounter.t)
    (entry : string * Z) : outcome (string * Z * list Z) :=
  match mapM (fun cap => FrequentCounter.query entry.1 <$> results !! cap) capacities with
  | Some estimates => Returns (entry.1, entry.2, estimates)
  | None => Raises KeyError
  end.

(** The rows of Table 2 of [run_frequent_experiment], one for each entry of
    [top_exact], as the numbers that are printed. *)
Definition run_frequent_experiment (capacities : list Z) (stream : list string)
    (top_exact : list (string * Z)) : list (outcome (string * Z * list Z)) :=
  frequent_row capacities (results_by_capacity capacities stream) <$> top_exact.

(** [sum(counts.values())]. *)
Definition total_count (counts : gmap string Z) : Z :=
  foldr Z.add 0%Z (map_to_list counts).*2.

(** What a cell of Table 2 is allowed to show for an item with the real
    count [real], in the column of the capacity [cap]: the real count when
    the capacity is at least the number of distinct items of the stream,
    and otherwise a number from 0 to the real count. *)
Definition cell_ok (stream : list string) (real cap estimate : Z) : Prop :=
  if decide (Z.of_nat (size (list_to_set stream : gset string)) <= cap)%Z
  then estimate = real
  else (0 <= estimate <= real)%Z.

(** A short Morris run: three calls with the values drawn in them. *)
Definition scenario_calls : list (string * Q) :=
  [("A", 0%Q); ("A", (1 # 2)%Q); ("B", 0%Q)].

(** ** Checks on the scenarios of the specification *)

Example exact_scenario :
  let c := ExactCounter.process_all ["A"; "A"; "B"; "A"; "C"; "B"] ExactCounter.init in
  ExactCounter.query "A" c = 3%Z /\ ExactCounter.query "B" c = 2%Z /\
  ExactCounter.query "C" c = 1%Z /\
  ExactCounter.get_top_n 2 c = [("A", 3%Z); ("B", 2%Z)].
Proof. vm_compute. auto. Qed.

Example frequent_scenario :
  let c := FrequentCounter.process_all ["A"; "A"; "B"; "C"; "A"] (FrequentCounter.init 2) in
  FrequentCounter.query "A" c = 2%Z /\ FrequentCounter.query "B" c = 0%Z /\
  FrequentCounter.query "C" c = 0%Z /\ map_to_list (FrequentCounter.counts c) = [("A", 2%Z)].
Proof. vm_compute. auto. Qed.

Example morris_scenario :
  MorrisCounter.query "A" (MorrisCounter.process (1 # 2) "A" MorrisCounter.init).1 = 1%Z.
Proof. vm_compute. auto. Qed.

(** ** ExactCounter: the tally is the occurrence count *)

Section exact_counter.
Implicit Types (counts : gmap string Z) (item x : string) (stream : list string).

Lemma occurrences_nil x : occurrences x [] = 0%Z.
Proof. reflexivity. Qed.

Lemma occurrences_cons x item stream :
  occurrences x (item :: stream)
  = ((if decide (item = x) then 1 else 0) + occurrences x stream)%Z.
Proof.
  unfold occurrences. simpl.
  destruct (string_dec item x), (decide (item = x)); try congruence; lia.
Qed.

Lemma occurrences_snoc x item stream :
  occurrences x (stream ++ [item])
  = (occurrences x stream + (if decide (item = x) then 1 else 0))%Z.
Proof.
  induction stream as [|y stream IH].
  - rewrite app_nil_l, occurrences_cons, occurrences_nil. lia.
  - rewrite <- app_comm_cons, !occurrences_cons, IH. lia.
Qed.

Lemma occurrences_nonneg x stream : (0 <= occurrences x stream)%Z.
Proof. unfold occurrences. lia. Qed.

Lemma exact_process_query item x counts :
  ExactCounter.query x (ExactCounter.process item counts)
  = (ExactCounter.query x counts + (if decide (item = x) then 1 else 0))%Z.
Proof.
  unfold ExactCounter.query, ExactCounter.process.
  destruct (decide (item = x)) as [->|Hne].
  - destruct (counts !! x) as [c|] eqn:E; rewrite lookup_insert_eq; simpl; lia.
  - destruct (counts !! item) as [c|]; rewrite lookup_insert_ne by done; lia.
Qed.

Lemma exact_process_all_query stream : forall counts x,
  ExactCounter.query x (ExactCounter.process_all stream counts)
  = (ExactCounter.query x counts + occurrences x stream)%Z.
Proof.
  induction stream as [|item stream IH]; intros counts x.
  - rewrite occurrences_nil. simpl. lia.
  - unfold ExactCounter.process_all in *. simpl.
    rewrite IH, exact_process_query, occurrences_cons. lia.
Qed.

Lemma exact_query_run stream x :
  ExactCounter.query x (ExactCounter.process_all stream ExactCounter.init)
  = occurrences x stream.
Proof.
  rewrite exact_process_all_query. unfold ExactCounter.query, ExactCounter.init.
  rewrite lookup_empty. reflexivity.
Qed.

Lemma occurrences_unseen x stream : x ∉ stream -> occurrences x stream = 0%Z.
Proof.
  intros Hx. unfold occurrences. rewrite list_elem_of_In in Hx.
  apply (count_occ_not_In string_dec) in Hx. rewrite Hx. reflexivity.
Qed.

(** C1: after an ExactCounter created empty has processed a whole
    stream, [query x] is the number of occurrences of [x] in the stream,
    for every item [x]. The occurrence count of an item that is not in the
    stream is 0 ([count_occ_not_In], [occurrences_unseen]), so the query of
    an item never processed returns 0. *)
Theorem C1_exact_query_is_occurrence_count (stream : list string) (x : string) :
  ExactCounter.query x (ExactCounter.process_all stream ExactCounter.init)
  = Z.of_nat (count_occ string_dec stream x).
Proof. apply exact_query_run. Qed.

End exact_counter.

(** ** FrequentCounter: the decrement step *)

Section frequent_decrement.
Implicit Types (counts : gmap string Z) (keys removed : list string) (x key : string).

Lemma filter_ext_elem_of (P1 P2 : string -> Prop)
    `{!forall k, Decision (P1 k), !forall k, Decision (P2 k)} keys :
  (forall k, k ∈ keys -> P1 k <-> P2 k) -> filter P1 keys = filter P2 keys.
Proof.
  induction keys as [|key keys IH]; intros HP; [done|].
  rewrite !filter_cons, IH by (intros k Hk; apply HP; by right).
  destruct (decide (P1 key)) as [H1|H1], (decide (P2 key)) as [H2|H2]; try done.
  - apply HP in H1; [done|left].
  - apply HP in H2; [done|left].
Qed.

Lemma decrement_pass_from keys : forall counts removed,
  NoDup keys ->
  let r := foldl (fun acc key => FrequentCounter.decrement_key key acc)
                 (counts, removed) keys in
  (forall x, r.1 !! x
             = if decide (x ∈ keys) then (fun c => (c - 1)%Z) <$> counts !! x
               else counts !! x)
  /\ r.2 = removed ++ filter (fun k => counts !! k = Some 1%Z) keys.
Proof.
  induction keys as [|key keys IH]; intros counts removed Hnd; simpl.
  - split; [intros x|].
    + destruct (decide (x ∈ [])) as [Hx|]; [by apply elem_of_nil in Hx|done].
    + by rewrite app_nil_r.
  - apply NoDup_cons in Hnd as [Hkey Hnd].
    destruct (IH (FrequentCounter.decrement_key key (counts, removed)).1
                 (FrequentCounter.decrement_key key (counts, removed)).2 Hnd)
      as [IH1 IH2].
    rewrite <- surjective_pairing in IH1, IH2.
    split.
    + intros x. rewrite IH1. unfold FrequentCounter.decrement_key; simpl.
      destruct (decide (x = key)) as [->|Hne].
      * rewrite decide_False by done. rewrite decide_True by left.
        apply lookup_alter_eq.
      * rewrite lookup_alter_ne by done.
        destruct (decide (x ∈ keys)) as [Hin|Hnin].
        -- by rewrite decide_True by (by right).
        -- rewrite decide_False; [done|].
           intros [?|?]%elem_of_cons; done.
    + rewrite IH2. unfold FrequentCounter.decrement_key; simpl.
      rewrite lookup_alter_eq, filter_cons.
      assert (filter (fun k => alter (fun c => (c - 1)%Z) key counts !! k = Some 1%Z) keys
              = filter (fun k => counts !! k = Some 1%Z) keys) as ->.
      { apply filter_ext_elem_of. intros k Hk.
        rewrite lookup_alter_ne; [done|]. intros ->. done. }
      destruct (counts !! key) as [c|] eqn:E; simpl.
      * destruct (decide (c = 1%Z)) as [->|Hc].
        -- rewrite decide_True by done. rewrite decide_True by done.
           by rewrite <- app_assoc.
        -- rewrite decide_False by (intros [= ?]; lia).
           rewrite decide_False by (intros [= ?]; lia). done.
      * done.
Qed.

Lemma remove_pass_lookup removed : forall counts x,
  FrequentCounter.remove_pass removed counts !! x
  = if decide (x ∈ removed) then None else counts !! x.
Proof.
  unfold FrequentCounter.remove_pass.
  induction removed as [|key removed IH]; intros counts x; simpl.
  - destruct (decide (x ∈ [])) as [Hx|]; [by apply elem_of_nil in Hx|done].
  - rewrite IH. destruct (decide (x ∈ removed)) as [Hin|Hnin].
    + by rewrite decide_True by (by right).
    + destruct (decide (x = key)) as [->|Hne].
      * rewrite decide_True by left. apply lookup_delete_eq.
      * rewrite lookup_delete_ne by done.
        rewrite decide_False; [done|]. intros [?|?]%elem_of_cons; done.
Qed.

(** The two loops, run over any enumeration [keys] of the table without
    repetition, leave each entry [decremented]: the order in which the
    dictionary yields its keys does not matter. *)
Lemma decrement_loops_lookup keys counts x :
  NoDup keys ->
  (forall k, k ∈ keys <-> is_Some (counts !! k)) ->
  let r := FrequentCounter.decrement_pass keys counts in
  FrequentCounter.remove_pass r.2 r.1 !! x
  = counts !! x ≫= FrequentCounter.decremented.
Proof.
  intros Hnd Hkeys r.
  destruct (decrement_pass_from keys counts [] Hnd) as [H1 H2].
  fold (FrequentCounter.decrement_pass keys counts) in H1, H2. fold r in H1, H2.
  rewrite remove_pass_lookup, H1, H2, app_nil_l.
  unfold FrequentCounter.decremented.
  destruct (counts !! x) as [c|] eqn:E; simpl.
  - assert (x ∈ keys) as Hx by (apply Hkeys; eauto).
    rewrite (decide_True (P := x ∈ keys)) by done. simpl.
    destruct (decide (c = 1%Z)) as [->|Hc].
    + rewrite decide_True; [done|]. apply list_elem_of_filter. done.
    + rewrite decide_False; [done|].
      intros [Hf _]%list_elem_of_filter. congruence.
  - assert (x ∉ keys) as Hx.
    { intros Hx%Hkeys. destruct Hx as [? ?]. congruence. }
    rewrite (decide_False (P := x ∈ keys)) by done.
    destruct (decide _); done.
Qed.

Lemma decrement_step_lookup counts x :
  FrequentCounter.decrement_step counts !! x
  = counts !! x ≫= FrequentCounter.decremented.
Proof.
  unfold FrequentCounter.decrement_step.
  apply decrement_loops_lookup.
  - apply NoDup_fst_map_to_list.
  - intros k. rewrite list_elem_of_fmap. split.
    + intros [[k' c] [-> Hin]]. apply elem_of_map_to_list in Hin. eauto.
    + intros [c Hc]. exists (k, c). split; [done|]. by apply elem_of_map_to_list.
Qed.

Lemma decrement_step_omap counts :
  FrequentCounter.decrement_step counts = omap FrequentCounter.decremented counts.
Proof.
  apply map_eq. intros x. by rewrite decrement_step_lookup, lookup_omap.
Qed.

End frequent_decrement.

(** ** FrequentCounter: size, sum and estimates along a run *)

Section frequent_counter.
Implicit Types (counts : gmap string Z) (item x : string) (stream seen : list string).
Implicit Types (fc : FrequentCounter.t) (k d : Z).

Local Abbreviation dec := FrequentCounter.decremented.
Local Abbreviation sum_counts := FrequentCounter.sum_counts.

Lemma sum_counts_empty : sum_counts ∅ = 0%Z.
Proof. unfold sum_counts. apply map_fold_empty. Qed.

Lemma sum_counts_insert_None counts x c :
  counts !! x = None -> sum_counts (<[x := c]> counts) = (c + sum_counts counts)%Z.
Proof.
  intros Hx. unfold sum_counts.
  rewrite map_fold_insert_L; [done| |done]. intros; lia.
Qed.

Lemma sum_counts_insert_Some counts x c c' :
  counts !! x = Some c ->
  sum_counts (<[x := c']> counts) = (sum_counts counts - c + c')%Z.
Proof.
  intros Hx.
  rewrite <- (insert_delete_id counts x c) at 2 by done.
  rewrite <- insert_delete_eq.
  rewrite !sum_counts_insert_None by apply lookup_delete_eq. lia.
Qed.

Lemma decremented_None c : dec c = None <-> c = 1%Z.
Proof. unfold dec. destruct (decide (c = 1%Z)); split; congruence. Qed.

Lemma decremented_Some c c' : dec c = Some c' <-> c <> 1%Z /\ c' = (c - 1)%Z.
Proof.
  unfold dec. destruct (decide (c = 1%Z)); split; try congruence.
  - intros [? ?]; done.
  - intros [= <-]; done.
  - intros [_ ->]; done.
Qed.

(** The decrement step takes one unit from every entry. *)
Lemma sum_counts_decrement counts :
  sum_counts (omap dec counts) = (sum_counts counts - Z.of_nat (size counts))%Z.
Proof.
  induction counts as [|x c counts Hx IH] using map_ind.
  - rewrite omap_empty, sum_counts_empty, map_size_empty. lia.
  - rewrite map_size_insert_None, sum_counts_insert_None by done.
    assert (omap dec counts !! x = None) as Hx' by (by rewrite lookup_omap, Hx).
    destruct (dec c) as [c'|] eqn:E.
    + rewrite (omap_insert_Some _ _ _ _ c') by done.
      apply decremented_Some in E as [_ ->].
      rewrite sum_counts_insert_None, IH by done. lia.
    + pose proof E as ->%decremented_None.
      rewrite omap_insert_None, delete_id, IH by done. lia.
Qed.

Lemma size_decrement counts : size (omap dec counts) <= size counts.
Proof.
  induction counts as [|x c counts Hx IH] using map_ind.
  - by rewrite omap_empty.
  - assert (omap dec counts !! x = None) as Hx' by (by rewrite lookup_omap, Hx).
    rewrite map_size_insert_None, omap_insert by done.
    destruct (dec c).
    + rewrite map_size_insert_None by done. lia.
    + rewrite delete_id by done. lia.
Qed.

Lemma positive_decrement counts :
  map_Forall (fun _ c => (0 < c)%Z) counts ->
  map_Forall (fun _ c => (0 < c)%Z) (omap dec counts).
Proof.
  intros Hpos x c'. rewrite lookup_omap.
  destruct (counts !! x) as [c|] eqn:E; simpl; [|done].
  intros [Hc ->]%decremented_Some. apply Hpos in E. simpl in E. lia.
Qed.

Lemma frequent_process_capacity item fc :
  FrequentCounter.capacity (FrequentCounter.process item fc)
  = FrequentCounter.capacity fc.
Proof.
  unfold FrequentCounter.process.
  destruct (FrequentCounter.counts fc !! item); [done|].
  by destruct (_ <? _)%Z.
Qed.

Lemma frequent_process_all_capacity stream : forall fc,
  FrequentCounter.capacity (FrequentCounter.process_all stream fc)
  = FrequentCounter.capacity fc.
Proof.
  unfold FrequentCounter.process_all.
  induction stream as [|item stream IH]; intros fc; simpl; [done|].
  by rewrite IH, frequent_process_capacity.
Qed.

Lemma frequent_process_bounded item fc :
  frequent_bounded fc -> frequent_bounded (FrequentCounter.process item fc).
Proof.
  destruct fc as [cap counts]. unfold frequent_bounded, FrequentCounter.process.
  simpl. intros [Hsize Hpos].
  destruct (counts !! item) as [c|] eqn:E; simpl.
  - split.
    + rewrite map_size_insert_Some by eauto. done.
    + apply map_Forall_insert_2; [|done]. apply Hpos in E. simpl in E. lia.
  - destruct (Z.of_nat (size counts) <? cap)%Z eqn:Hlt; simpl.
    + apply Z.ltb_lt in Hlt. split.
      * rewrite map_size_insert_None by done. lia.
      * apply map_Forall_insert_2; [lia|done].
    + rewrite decrement_step_omap. split.
      * pose proof (size_decrement counts). lia.
      * by apply positive_decrement.
Qed.

Lemma frequent_init_bounded k : (0 <= k)%Z -> frequent_bounded (FrequentCounter.init k).
Proof.
  intros Hk. split; simpl.
  - rewrite map_size_empty. lia.
  - apply map_Forall_empty.
Qed.

Lemma frequent_process_all_bounded stream : forall fc,
  frequent_bounded fc -> frequent_bounded (FrequentCounter.process_all stream fc).
Proof.
  unfold FrequentCounter.process_all.
  induction stream as [|item stream IH]; intros fc Hfc; simpl; [done|].
  by apply IH, frequent_process_bounded.
Qed.

Lemma frequent_process_counts item fc :
  FrequentCounter.counts (FrequentCounter.process item fc)
  = match FrequentCounter.counts fc !! item with
    | Some c => <[item := (c + 1)%Z]> (FrequentCounter.counts fc)
    | None =>
        if (Z.of_nat (size (FrequentCounter.counts fc)) <? FrequentCounter.capacity fc)%Z
        then <[item := 1%Z]> (FrequentCounter.counts fc)
        else omap dec (FrequentCounter.counts fc)
    end.
Proof.
  unfold FrequentCounter.process.
  destruct (FrequentCounter.counts fc !! item); [done|].
  destruct (_ <? _)%Z; [done|]. simpl. apply decrement_step_omap.
Qed.

(** An estimate after the decrement step: one less, or still 0. *)
Lemma query_decrement counts x :
  default 0%Z (omap dec counts !! x)
  = match counts !! x with Some c => (c - 1)%Z | None => 0%Z end.
Proof.
  rewrite lookup_omap. destruct (counts !! x) as [c|]; simpl; [|done].
  unfold dec. destruct (decide (c = 1%Z)); simpl; lia.
Qed.

(** One call of [process] raises the estimate of the arriving item by at
    most one and no other estimate at all. *)
Lemma frequent_process_query item x fc :
  (FrequentCounter.query x (FrequentCounter.process item fc)
   <= FrequentCounter.query x fc + (if decide (item = x) then 1 else 0))%Z.
Proof.
  unfold FrequentCounter.query. rewrite frequent_process_counts.
  destruct (FrequentCounter.counts fc !! item) as [c|] eqn:E.
  - destruct (decide (item = x)) as [->|Hne].
    + rewrite lookup_insert_eq, E. simpl. lia.
    + rewrite lookup_insert_ne by done. lia.
  - destruct (_ <? _)%Z.
    + destruct (decide (item = x)) as [->|Hne].
      * rewrite lookup_insert_eq, E. simpl. lia.
      * rewrite lookup_insert_ne by done. lia.
    + rewrite query_decrement.
      destruct (FrequentCounter.counts fc !! x); destruct (decide (item = x)); simpl; lia.
Qed.

Lemma frequent_process_all_query stream : forall fc x,
  (FrequentCounter.query x (FrequentCounter.process_all stream fc)
   <= FrequentCounter.query x fc + occurrences x stream)%Z.
Proof.
  unfold FrequentCounter.process_all.
  induction stream as [|item stream IH]; intros fc x; simpl.
  - rewrite occurrences_nil. lia.
  - specialize (IH (FrequentCounter.process item fc) x).
    pose proof (frequent_process_query item x fc).
    rewrite occurrences_cons. lia.
Qed.

(** One call of [process] adds at most one to the sum of the counts. *)
Lemma frequent_process_sum item fc :
  (sum_counts (FrequentCounter.counts (FrequentCounter.process item fc))
   <= sum_counts (FrequentCounter.counts fc) + 1)%Z.
Proof.
  rewrite frequent_process_counts.
  destruct (FrequentCounter.counts fc !! item) as [c|] eqn:E.
  - rewrite (sum_counts_insert_Some _ _ c) by done. lia.
  - destruct (_ <? _)%Z.
    + rewrite sum_counts_insert_None by done. lia.
    + rewrite sum_counts_decrement. lia.
Qed.

Lemma frequent_process_all_sum stream : forall fc,
  (sum_counts (FrequentCounter.counts (FrequentCounter.process_all stream fc))
   <= sum_counts (FrequentCounter.counts fc) + Z.of_nat (length stream))%Z.
Proof.
  unfold FrequentCounter.process_all.
  induction stream as [|item stream IH]; intros fc; simpl; [lia|].
  specialize (IH (FrequentCounter.process item fc)).
  pose proof (frequent_process_sum item fc). lia.
Qed.

(** The sum of the estimates of the tracked items is the sum of the stored
    counts. *)
Lemma sum_of_queries_sum_counts fc :
  FrequentCounter.sum_of_queries fc = sum_counts (FrequentCounter.counts fc).
Proof.
  unfold FrequentCounter.sum_of_queries, FrequentCounter.tracked, sum_counts.
  rewrite map_fold_foldr.
  assert (Forall (fun kc => FrequentCounter.query kc.1 fc = kc.2)
                 (map_to_list (FrequentCounter.counts fc))) as Hall.
  { apply Forall_forall. intros [y c] Hin%elem_of_map_to_list.
    unfold FrequentCounter.query. simpl. by rewrite Hin. }
  induction Hall as [|[y c] l Hy _ IH]; [done|].
  rewrite !fmap_cons. simpl in *. by rewrite Hy, IH.
Qed.

Lemma sum_counts_nonneg counts :
  map_Forall (fun _ c => (0 < c)%Z) counts -> (0 <= sum_counts counts)%Z.
Proof.
  induction counts as [|y c m Hy IH] using map_ind; intros Hpos.
  - by rewrite sum_counts_empty.
  - rewrite sum_counts_insert_None by done.
    apply map_Forall_insert in Hpos as [Hc Hm]; [|done].
    specialize (IH Hm). lia.
Qed.

Lemma misra_gries_init k : (0 <= k)%Z -> misra_gries k [] 0 (FrequentCounter.init k).
Proof.
  intros Hk. unfold misra_gries. split; [done|].
  split; [by apply frequent_init_bounded|]. split; [lia|]. split.
  - simpl. rewrite sum_counts_empty. lia.
  - intros x. rewrite occurrences_nil. unfold FrequentCounter.query. simpl.
    rewrite lookup_empty. simpl. lia.
Qed.

(** One call of [process] keeps the accounting: the first two cases store
    the arriving item, the third is one more decrement step, taken on a
    full table. *)
Lemma misra_gries_step k seen d item fc :
  (0 < k)%Z -> misra_gries k seen d fc ->
  exists d', misra_gries k (seen ++ [item]) d' (FrequentCounter.process item fc).
Proof.
  intros Hk (Hcap & Hbnd & Hd & Hsum & Hocc).
  pose proof (frequent_process_bounded item fc Hbnd) as Hbnd'.
  pose proof (frequent_process_capacity item fc) as Hcap'.
  pose proof (frequent_process_counts item fc) as Hcounts.
  destruct Hbnd as [Hsize Hpos].
  assert (Z.of_nat (length (seen ++ [item])) = Z.of_nat (length seen) + 1)%Z as Hlen.
  { rewrite length_app. simpl. lia. }
  destruct (FrequentCounter.counts fc !! item) as [c|] eqn:E.
  - (* the item is tracked *)
    exists d. split; [congruence|]. split; [done|]. split; [done|]. split.
    + rewrite Hcounts, (sum_counts_insert_Some _ _ c), Hlen by done. lia.
    + intros x. rewrite occurrences_snoc. specialize (Hocc x).
      unfold FrequentCounter.query in *. rewrite Hcounts.
      destruct (decide (item = x)) as [->|Hne].
      * rewrite lookup_insert_eq. rewrite E in Hocc. simpl in *. lia.
      * rewrite lookup_insert_ne by done. lia.
  - destruct (Z.of_nat (size (FrequentCounter.counts fc)) <? FrequentCounter.capacity fc)%Z
      eqn:Hlt.
    + (* there is room for the item *)
      exists d. split; [congruence|]. split; [done|]. split; [done|]. split.
      * rewrite Hcounts, sum_counts_insert_None, Hlen by done. lia.
      * intros x. rewrite occurrences_snoc. specialize (Hocc x).
        unfold FrequentCounter.query in *. rewrite Hcounts.
        destruct (decide (item = x)) as [->|Hne].
        -- rewrite lookup_insert_eq. rewrite E in Hocc. simpl in *. lia.
        -- rewrite lookup_insert_ne by done. lia.
    + (* the table is full: every entry is decremented *)
      apply Z.ltb_ge in Hlt.
      exists (d + 1)%Z. split; [congruence|]. split; [done|]. split; [lia|]. split.
      * rewrite Hcounts, sum_counts_decrement, Hlen. nia.
      * intros x. rewrite occurrences_snoc. specialize (Hocc x).
        unfold FrequentCounter.query in *. rewrite Hcounts, query_decrement.
        destruct (decide (item = x)) as [->|Hne].
        -- rewrite E in *. simpl in *. lia.
        -- destruct (FrequentCounter.counts fc !! x); simpl in *; lia.
Qed.

Lemma misra_gries_run k stream : forall seen d fc,
  (0 < k)%Z -> misra_gries k seen d fc ->
  exists d', misra_gries k (seen ++ stream) d' (FrequentCounter.process_all stream fc).
Proof.
  unfold FrequentCounter.process_all.
  induction stream as [|item stream IH]; intros seen d fc Hk Hmg; simpl.
  - exists d. by rewrite app_nil_r.
  - destruct (misra_gries_step k seen d item fc Hk Hmg) as [d1 Hmg1].
    destruct (IH _ _ _ Hk Hmg1) as [d2 Hmg2].
    exists d2. by rewrite <- app_assoc in Hmg2.
Qed.

(** The bound in the form the accounting gives it: an item that occurs more
    than [length stream / (k + 1)] times has a positive count at the end. *)
Lemma misra_gries_bound k stream x :
  (0 < k)%Z ->
  (Z.of_nat (length stream) < occurrences x stream * (k + 1))%Z ->
  (0 < FrequentCounter.query x
         (FrequentCounter.process_all stream (FrequentCounter.init k)))%Z.
Proof.
  intros Hk Hx.
  destruct (misra_gries_run k stream [] 0 (FrequentCounter.init k) Hk
              (misra_gries_init k ltac:(lia)))
    as (d & _ & [_ Hpos] & Hd & Hsum & Hocc).
  rewrite app_nil_l in Hsum, Hocc. specialize (Hocc x).
  pose proof (sum_counts_nonneg _ Hpos).
  nia.
Qed.

End frequent_counter.

(** ** FrequentCounter: the claims *)

Section frequent_claims.
Implicit Types (x : string) (stream : list string) (k : Z).

(** C2: a FrequentCounter of positive capacity and an ExactCounter
    that have processed the same stream satisfy
    [FrequentCounter.query x <= ExactCounter.query x] for every item [x]:
    the Frequent-Count estimate never exceeds the true count. *)
Theorem C2_frequent_never_overestimates k stream x :
  (0 < k)%Z ->
  (FrequentCounter.query x (frequent_pass k stream)
   <= ExactCounter.query x (ExactCounter.process_all stream ExactCounter.init))%Z.
Proof.
  intros _. unfold frequent_pass. rewrite exact_query_run.
  pose proof (frequent_process_all_query stream (FrequentCounter.init k) x) as H.
  unfold FrequentCounter.query at 2 in H. simpl in H.
  rewrite lookup_empty in H. simpl in H. lia.
Qed.

Lemma C2_witness :
  (0 < 2)%Z
  /\ (FrequentCounter.query "A" (frequent_pass 2 scenario_stream)
      <= ExactCounter.query "A"
           (ExactCounter.process_all scenario_stream ExactCounter.init))%Z.
Proof.
  split; [lia|].
  apply (C2_frequent_never_overestimates 2 scenario_stream "A"). lia.
Defined.

(** The hypothesis of the presence bound, read over the rationals, is the
    inequality between integers that the accounting uses. *)
Lemma above_threshold k stream x :
  (0 < k)%Z ->
  (inject_Z (Z.of_nat (length stream)) / inject_Z (k + 1)
   < inject_Z (occurrences x stream))%Q ->
  (Z.of_nat (length stream) < occurrences x stream * (k + 1))%Z.
Proof.
  intros Hk Hq.
  destruct (Z_lt_le_dec (Z.of_nat (length stream)) (occurrences x stream * (k + 1)))
    as [Hlt|Hle]; [done|].
  exfalso. apply (Qlt_not_le _ _ Hq).
  apply Qle_shift_div_l.
  - change 0%Q with (inject_Z 0). rewrite <- Zlt_Qlt. lia.
  - rewrite <- inject_Z_mult, <- Zle_Qle. done.
Qed.

(** C3 (Misra-Gries presence bound): after a FrequentCounter of
    positive capacity [k] has processed a whole stream of length [L], every
    item whose number of occurrences is strictly greater than [L / (k + 1)]
    is still in the table, and its query is positive. *)
Theorem C3_misra_gries_presence k stream x :
  (0 < k)%Z ->
  (inject_Z (Z.of_nat (length stream)) / inject_Z (k + 1)
   < inject_Z (Z.of_nat (count_occ string_dec stream x)))%Q ->
  is_Some (FrequentCounter.counts (frequent_pass k stream) !! x)
  /\ (0 < FrequentCounter.query x (frequent_pass k stream))%Z.
Proof.
  intros Hk Hq. unfold frequent_pass.
  pose proof (misra_gries_bound k stream x Hk (above_threshold k stream x Hk Hq)) as Hpos.
  split; [|done].
  unfold FrequentCounter.query in Hpos.
  destruct (FrequentCounter.counts _ !! x); [eauto|simpl in Hpos; lia].
Qed.

Lemma C3_witness :
  ((0 < 2)%Z
   /\ (inject_Z (Z.of_nat (length scenario_stream)) / inject_Z (2 + 1)
       < inject_Z (Z.of_nat (count_occ string_dec scenario_stream "A")))%Q)
  /\ (is_Some (FrequentCounter.counts (frequent_pass 2 scenario_stream) !! "A")
      /\ (0 < FrequentCounter.query "A" (frequent_pass 2 scenario_stream))%Z).
Proof.
  assert ((0 < 2)%Z
   /\ (inject_Z (Z.of_nat (length scenario_stream)) / inject_Z (2 + 1)
       < inject_Z (Z.of_nat (count_occ string_dec scenario_stream "A")))%Q)
    as H by (split; [lia|reflexivity]).
  split; [exact H|].
  apply (C3_misra_gries_presence 2 scenario_stream "A"); apply H.
Defined.

(** C5: for a FrequentCounter constructed with a positive capacity,
    after every sequence of [process] calls the capacity is the one given
    at construction, the table holds at most [capacity] items, and every
    stored count is a positive integer: no entry is kept at zero. *)
Theorem C5_frequent_state_invariant k stream :
  (0 < k)%Z ->
  FrequentCounter.capacity (frequent_pass k stream) = k
  /\ (Z.of_nat (size (FrequentCounter.counts (frequent_pass k stream))) <= k)%Z
  /\ (forall x c, FrequentCounter.counts (frequent_pass k stream) !! x = Some c ->
                  (0 < c)%Z)
  /\ (forall x, FrequentCounter.counts (frequent_pass k stream) !! x <> Some 0%Z).
Proof.
  intros Hk. unfold frequent_pass.
  pose proof (frequent_process_all_capacity stream (FrequentCounter.init k)) as Hcap.
  destruct (frequent_process_all_bounded stream (FrequentCounter.init k)
              (frequent_init_bounded k ltac:(lia))) as [Hsize Hpos].
  simpl in Hcap. rewrite Hcap in Hsize.
  split; [done|]. split; [done|]. split.
  - intros x c Hx. by apply Hpos in Hx.
  - intros x Hx. apply Hpos in Hx. simpl in Hx. lia.
Qed.

Lemma C5_witness :
  (0 < 2)%Z
  /\ (FrequentCounter.capacity (frequent_pass 2 scenario_stream) = 2%Z
      /\ (Z.of_nat (size (FrequentCounter.counts
                            (frequent_pass 2 scenario_stream))) <= 2)%Z
      /\ (forall x c,
            FrequentCounter.counts (frequent_pass 2 scenario_stream) !! x
            = Some c -> (0 < c)%Z)
      /\ (forall x,
            FrequentCounter.counts (frequent_pass 2 scenario_stream) !! x
            <> Some 0%Z)).
Proof.
  split; [lia|].
  apply (C5_frequent_state_invariant 2 scenario_stream). lia.
Defined.

(** C6: after a FrequentCounter of positive capacity has processed a
    whole stream, the sum of [query x] over the tracked items [x] is at
    most the length of the stream. *)
Theorem C6_frequent_sum_at_most_length k stream :
  (0 < k)%Z ->
  (FrequentCounter.sum_of_queries (frequent_pass k stream)
   <= Z.of_nat (length stream))%Z.
Proof.
  intros _. unfold frequent_pass. rewrite sum_of_queries_sum_counts.
  pose proof (frequent_process_all_sum stream (FrequentCounter.init k)) as H.
  simpl in H. rewrite sum_counts_empty in H. lia.
Qed.

Lemma C6_witness :
  (0 < 2)%Z
  /\ (FrequentCounter.sum_of_queries (frequent_pass 2 scenario_stream)
      <= Z.of_nat (length scenario_stream))%Z.
Proof.
  split; [lia|].
  apply (C6_frequent_sum_at_most_length 2 scenario_stream). lia.
Defined.

(** The constructor stores the capacity as it is given. *)
Lemma frequent_new_returns k :
  FrequentCounter.new k
  = Returns {| FrequentCounter.capacity := k; FrequentCounter.counts := ∅ |}.
Proof. reflexivity. Qed.

(** C9, as the specification has it, fails at capacity 0: the
    constructor call is not rejected. *)
Lemma C9_counterexample :
  ~ ((0 <= 0)%Z -> rejected (FrequentCounter.new 0)).
Proof. intros H. exact (H ltac:(lia)). Qed.

(** C9, amended: the constructor validates nothing. For every integer
    capacity, non-positive ones included, the call returns a counter that
    stores this capacity and an empty table; no call is rejected. *)
Theorem C9_constructor_accepts_any_capacity k :
  FrequentCounter.new k
  = Returns {| FrequentCounter.capacity := k; FrequentCounter.counts := ∅ |}
  /\ ~ rejected (FrequentCounter.new k).
Proof. split; [apply frequent_new_returns|]. simpl. tauto. Qed.

Lemma frequent_process_no_room item k :
  (k <= 0)%Z ->
  FrequentCounter.process item (FrequentCounter.init k) = FrequentCounter.init k.
Proof.
  intros Hk. unfold FrequentCounter.process, FrequentCounter.init. simpl.
  rewrite lookup_empty, map_size_empty.
  destruct (Z.of_nat 0 <? k)%Z eqn:E; [apply Z.ltb_lt in E; lia|].
  by rewrite decrement_step_omap, omap_empty.
Qed.

(** C10: a FrequentCounter constructed with a capacity [<= 0] never
    tracks anything. Every call of [process] finds the item absent and no
    room, takes the decrement step over the empty table and leaves it
    empty; after any sequence of calls the table is empty and [query]
    returns 0 for every item. *)
Theorem C10_nonpositive_capacity_tracks_nothing k stream x :
  (k <= 0)%Z ->
  (forall item, FrequentCounter.process item (FrequentCounter.init k)
                = FrequentCounter.init k)
  /\ FrequentCounter.counts (frequent_pass k stream) = ∅
  /\ FrequentCounter.query x (frequent_pass k stream) = 0%Z.
Proof.
  intros Hk.
  assert (frequent_pass k stream = FrequentCounter.init k) as Hrun.
  { unfold frequent_pass, FrequentCounter.process_all.
    induction stream as [|item stream IH]; simpl; [done|].
    by rewrite frequent_process_no_room. }
  split; [intros item; by apply frequent_process_no_room|].
  rewrite Hrun. split; [done|].
  unfold FrequentCounter.query. simpl. by rewrite lookup_empty.
Qed.

Lemma C10_witness :
  (-1 <= 0)%Z
  /\ ((forall item, FrequentCounter.process item (FrequentCounter.init (-1))
                    = FrequentCounter.init (-1))
      /\ FrequentCounter.counts (frequent_pass (-1) ["A"; "B"; "A"]) = ∅
      /\ FrequentCounter.query "A" (frequent_pass (-1) ["A"; "B"; "A"]) = 0%Z).
Proof.
  split; [lia|].
  apply (C10_nonpositive_capacity_tracks_nothing (-1) ["A"; "B"; "A"] "A"). lia.
Defined.

End frequent_claims.

(** ** MorrisCounter: first sight and monotone exponents *)

Section morris_counter.
Implicit Types (counts : gmap string N) (item x : string) (u : Q).
Implicit Types (calls : list (string * Q)).

Lemma draw_below_one u : (u < 1)%Q -> MorrisCounter.draw_below u (MorrisCounter.probability 0) = true.
Proof.
  intros Hu. unfold MorrisCounter.draw_below.
  change (MorrisCounter.probability 0) with (1 * / 1)%Q.
  pose proof (proj1 (Qlt_alt u (1 * / 1)) Hu) as Hlt. by rewrite Hlt.
Qed.

(** What one call does to the table: nothing, a new entry at 0, or the
    entry of the arriving item one higher. *)
Lemma morris_process_exponent u item counts x :
  MorrisCounter.exponent x (MorrisCounter.process u item counts).1
  = MorrisCounter.exponent x counts
  \/ MorrisCounter.exponent x (MorrisCounter.process u item counts).1
     = (MorrisCounter.exponent x counts + 1)%N.
Proof.
  unfold MorrisCounter.process, MorrisCounter.exponent.
  destruct (counts !! item) as [k|] eqn:E.
  - rewrite E. destruct (_ <? _)%N; [by left|].
    destruct (MorrisCounter.draw_below _ _); [|by left]. simpl.
    destruct (decide (item = x)) as [->|Hne].
    + right. by rewrite lookup_insert_eq, E.
    + left. by rewrite lookup_insert_ne.
  - rewrite lookup_insert_eq. simpl.
    destruct (MorrisCounter.draw_below _ _); simpl.
    + destruct (decide (item = x)) as [->|Hne].
      * right. by rewrite lookup_insert_eq, E.
      * left. by rewrite !lookup_insert_ne.
    + left. destruct (decide (item = x)) as [->|Hne].
      * by rewrite lookup_insert_eq, E.
      * by rewrite lookup_insert_ne.
Qed.

Lemma morris_process_all_exponent calls : forall counts x,
  (MorrisCounter.exponent x counts
   <= MorrisCounter.exponent x (MorrisCounter.process_all calls counts).1)%N.
Proof.
  induction calls as [|[item u] calls IH]; intros counts x; simpl; [lia|].
  pose proof (morris_process_exponent u item counts x) as Hstep.
  destruct (MorrisCounter.process u item counts) as [counts' [[]|e]]; simpl in *.
  - specialize (IH counts' x). lia.
  - lia.
Qed.

Lemma morris_query_mono counts counts' x :
  (MorrisCounter.exponent x counts <= MorrisCounter.exponent x counts')%N ->
  (MorrisCounter.query x counts <= MorrisCounter.query x counts')%Z.
Proof.
  intros Hle. unfold MorrisCounter.query.
  assert (2 ^ Z.of_N (MorrisCounter.exponent x counts)
          <= 2 ^ Z.of_N (MorrisCounter.exponent x counts'))%Z; [|lia].
  apply Z.pow_le_mono_r; lia.
Qed.

Lemma morris_first_sight u x counts :
  (u < 1)%Q -> counts !! x = None ->
  MorrisCounter.process u x counts = (<[x := 1%N]> counts, Returns tt).
Proof.
  intros Hu Hx. unfold MorrisCounter.process.
  rewrite Hx, lookup_insert_eq. simpl.
  rewrite draw_below_one by done. by rewrite insert_insert_eq.
Qed.

Lemma morris_first_sight_query u x counts :
  (u < 1)%Q -> counts !! x = None ->
  MorrisCounter.exponent x (MorrisCounter.process u x counts).1 = 1%N
  /\ MorrisCounter.query x (MorrisCounter.process u x counts).1 = 1%Z.
Proof.
  intros Hu Hx. rewrite morris_first_sight by done.
  unfold MorrisCounter.query, MorrisCounter.exponent. simpl.
  by rewrite lookup_insert_eq.
Qed.

(** C4: on a freshly created MorrisCounter, one call [process x]
    returns and takes the exponent of [x] from 0 to 1 whatever value in
    [0, 1) is drawn, so the query that follows returns exactly 1. (The same
    holds on any table that does not hold [x] yet:
    [morris_first_sight_query].) *)
Theorem C4_morris_first_occurrence u x :
  (0 <= u)%Q -> (u < 1)%Q ->
  MorrisCounter.exponent x MorrisCounter.init = 0%N
  /\ MorrisCounter.process u x MorrisCounter.init = ({[x := 1%N]}, Returns tt)
  /\ MorrisCounter.exponent x (MorrisCounter.process u x MorrisCounter.init).1 = 1%N
  /\ MorrisCounter.query x (MorrisCounter.process u x MorrisCounter.init).1 = 1%Z.
Proof.
  intros _ Hu. split; [done|]. split.
  - by rewrite morris_first_sight by (done || apply lookup_empty).
  - apply morris_first_sight_query; [done|apply lookup_empty].
Qed.

Lemma C4_witness :
  ((0 <= 1 # 2)%Q /\ (1 # 2 < 1)%Q)
  /\ (MorrisCounter.exponent "A" MorrisCounter.init = 0%N
      /\ MorrisCounter.process (1 # 2) "A" MorrisCounter.init
         = ({["A" := 1%N]}, Returns tt)
      /\ MorrisCounter.exponent "A"
           (MorrisCounter.process (1 # 2) "A" MorrisCounter.init).1 = 1%N
      /\ MorrisCounter.query "A"
           (MorrisCounter.process (1 # 2) "A" MorrisCounter.init).1 = 1%Z).
Proof.
  assert ((0 <= 1 # 2)%Q /\ (1 # 2 < 1)%Q) as H by (split; [discriminate|reflexivity]).
  split; [exact H|].
  apply (C4_morris_first_occurrence (1 # 2) "A"); apply H.
Defined.

(** C8: whatever is drawn, one call of [process] leaves the exponent
    of an item as it was or raises it by exactly 1 (a call that raises an
    exception leaves it as it was); so along any run of calls the exponent
    of an item, and with it the value [query] returns for it, never
    decreases. *)
Theorem C8_morris_exponent_monotone u item calls counts x :
  (MorrisCounter.exponent x (MorrisCounter.process u item counts).1
   = MorrisCounter.exponent x counts
   \/ MorrisCounter.exponent x (MorrisCounter.process u item counts).1
      = (MorrisCounter.exponent x counts + 1)%N)
  /\ (MorrisCounter.query x counts
      <= MorrisCounter.query x (MorrisCounter.process u item counts).1)%Z
  /\ (MorrisCounter.exponent x counts
      <= MorrisCounter.exponent x (MorrisCounter.process_all calls counts).1)%N
  /\ (MorrisCounter.query x counts
      <= MorrisCounter.query x (MorrisCounter.process_all calls counts).1)%Z.
Proof.
  pose proof (morris_process_exponent u item counts x) as Hstep.
  pose proof (morris_process_all_exponent calls counts x) as Hrun.
  split; [done|]. split; [apply morris_query_mono; lia|].
  split; [done|]. by apply morris_query_mono.
Qed.

End morris_counter.

(** ** Rankings: [sorted] and the slice *)

Section ranking.
Implicit Types (x y z : string * Z) (items : list (string * Z)) (n : Z).

Lemma string_leb_ltb (s1 s2 : string) : String.leb s1 s2 = negb (String.ltb s2 s1).
Proof.
  unfold String.leb, String.ltb. rewrite String.compare_antisym.
  by destruct (String.compare s2 s1).
Qed.

Lemma string_leb_trans (s1 s2 s3 : string) :
  String.leb s1 s2 = true -> String.leb s2 s3 = true -> String.leb s1 s3 = true.
Proof.
  unfold String.leb.
  destruct (String.compare s1 s2) eqn:E12; [| |done]; intros _.
  - apply String.compare_eq_iff in E12 as ->. done.
  - destruct (String.compare s2 s3) eqn:E23; [| |done]; intros _.
    + apply String.compare_eq_iff in E23 as <-. by rewrite E12.
    + apply String_as_OT.cmp_lt in E12, E23.
      pose proof (String_as_OT.lt_trans _ _ _ E12 E23) as H13.
      apply String_as_OT.cmp_lt in H13. unfold String_as_OT.cmp in H13.
      by rewrite H13.
Qed.

(** What [sorted] compares is the order of the specification. *)
Lemma key_le_ranked_before x y : Py.key_le x y <-> Py.ranked_before x y.
Proof.
  destruct x as [nx cx], y as [ny cy].
  unfold Py.key_le, Py.ranked_before, Py.tuple_ltb, Py.sort_key. simpl.
  rewrite string_leb_ltb.
  destruct (Z.eqb_spec (- cy) (- cx)) as [Heq|Hne].
  - split.
    + intros ->. right. split; [lia|done].
    + intros [Hlt|[_ Hle]]; [lia|]. by destruct (String.ltb ny nx).
  - rewrite Z.ltb_ge. split.
    + intros Hle. left. lia.
    + intros [Hlt|[Heq _]]; lia.
Qed.

Global Instance ranked_before_total : Total Py.ranked_before.
Proof.
  intros [nx cx] [ny cy]. unfold Py.ranked_before. simpl.
  destruct (Z.lt_trichotomy cx cy) as [?|[->|?]]; [by right; left| |by left; left].
  destruct (String.leb_total nx ny); [left|right]; by right.
Qed.

Global Instance ranked_before_trans : Transitive Py.ranked_before.
Proof.
  intros [nx cx] [ny cy] [nz cz]. unfold Py.ranked_before. simpl.
  intros [?|[-> Hxy]] [?|[-> Hyz]]; [left; lia..|].
  right. split; [done|]. by eapply string_leb_trans.
Qed.

Global Instance ranked_before_antisym : AntiSymm (=) Py.ranked_before.
Proof.
  intros [nx cx] [ny cy]. unfold Py.ranked_before. simpl.
  intros [?|[-> Hxy]] [?|[? Hyx]]; try lia.
  f_equal. by apply String.leb_antisym.
Qed.

Global Instance key_le_total : Total Py.key_le.
Proof. intros x y. rewrite !key_le_ranked_before. apply total, _. Qed.

Global Instance key_le_trans : Transitive Py.key_le.
Proof. intros x y z. rewrite !key_le_ranked_before. apply transitivity. Qed.

Lemma StronglySorted_key_le_ranked items :
  StronglySorted Py.key_le items -> StronglySorted Py.ranked_before items.
Proof.
  induction 1 as [|x items _ IH Hx]; constructor; [done|].
  eapply Forall_impl; [exact Hx|]. intros y. apply key_le_ranked_before.
Qed.

Lemma sorted_ranked items : StronglySorted Py.ranked_before (Py.sorted items).
Proof.
  apply StronglySorted_key_le_ranked. unfold Py.sorted.
  apply StronglySorted_merge_sort; apply _.
Qed.

Lemma sorted_Permutation items : Py.sorted items ≡ₚ items.
Proof. apply merge_sort_Permutation. Qed.

(** The result of [sorted] depends on the entries only, not on the order
    in which the dictionary hands them over. *)
Lemma sorted_order_irrelevant items items' :
  items ≡ₚ items' -> Py.sorted items = Py.sorted items'.
Proof.
  intros Hperm. apply (StronglySorted_unique Py.ranked_before).
  - apply sorted_ranked.
  - apply sorted_ranked.
  - by rewrite !sorted_Permutation.
Qed.

Lemma slice_to_take {A} n (l : list A) :
  exists m, Py.slice_to n l = take m l
            /\ Z.of_nat (length (Py.slice_to n l)) = Py.slice_length n (length l).
Proof.
  unfold Py.slice_to, Py.slice_length.
  destruct (0 <=? n)%Z eqn:E; eexists; (split; [reflexivity|]);
    rewrite length_take; lia.
Qed.


End ranking.

(** ** The three [get_top_n] *)

Section top_n.
Implicit Types (n : Z) (items : list (string * Z)).



(** The entries the Morris ranking is made of: each tracked item with the
    estimate [query] returns for it. *)
Lemma estimated_counts_elem_of (counts : gmap string N) (x : string) (c : Z) :
  (x, c) ∈ MorrisCounter.estimated_counts counts
  <-> is_Some (counts !! x) /\ c = MorrisCounter.query x counts.
Proof.
  unfold MorrisCounter.estimated_counts. rewrite list_elem_of_fmap. split.
  - intros (y & [= -> ->] & Hy). split; [|done].
    apply list_elem_of_fmap in Hy as ([y' k] & -> & Hin).
    apply elem_of_map_to_list in Hin. eauto.
  - intros [[k Hk] ->]. exists x. split; [done|].
    apply list_elem_of_fmap. exists (x, k). split; [done|].
    by apply elem_of_map_to_list.
Qed.



End top_n.

(** ** ExactCounter: the table as a whole *)

Section exact_table.
Implicit Types (counts : gmap string Z) (item x : string) (stream : list string).

Lemma exact_process_lookup item x counts :
  ExactCounter.process item counts !! x
  = if decide (item = x) then Some (ExactCounter.query x counts + 1)%Z
    else counts !! x.
Proof.
  unfold ExactCounter.process, ExactCounter.query.
  destruct (decide (item = x)) as [->|Hne].
  - destruct (counts !! x); by rewrite lookup_insert_eq.
  - destruct (counts !! item); by rewrite lookup_insert_ne.
Qed.

Lemma exact_process_all_snoc stream item counts :
  ExactCounter.process_all (stream ++ [item]) counts
  = ExactCounter.process item (ExactCounter.process_all stream counts).
Proof. unfold ExactCounter.process_all. by rewrite foldl_snoc. Qed.

Lemma occurrences_elem_of x stream : x ∈ stream -> (0 < occurrences x stream)%Z.
Proof.
  intros Hx. unfold occurrences. apply list_elem_of_In in Hx.
  apply (count_occ_In string_dec) in Hx. lia.
Qed.

(** The table after a pass: an entry for each item of the stream, holding
    its number of occurrences, and no other entry. *)
Lemma exact_lookup stream x :
  ExactCounter.process_all stream ExactCounter.init !! x
  = if decide (x ∈ stream) then Some (occurrences x stream) else None.
Proof.
  induction stream as [|item stream IH] using rev_ind.
  - by rewrite decide_False by apply not_elem_of_nil.
  - rewrite exact_process_all_snoc, exact_process_lookup, exact_query_run.
    rewrite occurrences_snoc.
    destruct (decide (item = x)) as [->|Hne].
    + rewrite decide_True; [done|]. apply elem_of_app. right. by left.
    + rewrite IH, Z.add_0_r.
      destruct (decide (x ∈ stream)) as [Hin|Hnin].
      * rewrite decide_True; [done|]. apply elem_of_app. by left.
      * rewrite decide_False; [done|].
        intros [?|Hx%list_elem_of_singleton]%elem_of_app; done.
Qed.

Lemma exact_dom stream :
  dom (ExactCounter.process_all stream ExactCounter.init) = list_to_set stream.
Proof.
  apply set_eq. intros x. rewrite elem_of_dom, exact_lookup, elem_of_list_to_set.
  destruct (decide (x ∈ stream)); split; [eauto|done|by intros [? ?]|done].
Qed.

Lemma exact_size_distinct stream :
  size (ExactCounter.process_all stream ExactCounter.init)
  = size (list_to_set stream : gset string).
Proof. by rewrite <- size_dom, exact_dom. Qed.

(** X1: the ExactCounter never evicts and never invents: after a pass
    over a stream the keys of its table are exactly the items of the
    stream, so the table has one entry per distinct item, and every stored
    count is at least 1. *)
Theorem exact_tracks_the_items_seen stream :
  dom (ExactCounter.process_all stream ExactCounter.init) = list_to_set stream
  /\ size (ExactCounter.process_all stream ExactCounter.init)
     = size (list_to_set stream : gset string)
  /\ map_Forall (fun _ c => (1 <= c)%Z)
                (ExactCounter.process_all stream ExactCounter.init).
Proof.
  split; [apply exact_dom|]. split; [apply exact_size_distinct|].
  intros x c. rewrite exact_lookup.
  destruct (decide (x ∈ stream)) as [Hin|]; [|done].
  intros [= <-]. pose proof (occurrences_elem_of x stream Hin). lia.
Qed.

(** X2: the table an ExactCounter ends with does not depend on the
    order of the stream: two streams that are permutations of each other
    give the same table. *)
Theorem exact_order_irrelevant stream stream' :
  stream ≡ₚ stream' ->
  ExactCounter.process_all stream ExactCounter.init
  = ExactCounter.process_all stream' ExactCounter.init.
Proof.
  intros Hperm. apply map_eq. intros x. rewrite !exact_lookup.
  assert (occurrences x stream = occurrences x stream') as ->.
  { unfold occurrences. f_equal.
    by apply (proj1 (Permutation_count_occ string_dec stream stream')). }
  destruct (decide (x ∈ stream)) as [Hin|Hnin].
  - rewrite decide_True; [done|]. by rewrite <- Hperm.
  - rewrite decide_False; [done|]. by rewrite <- Hperm.
Qed.

Lemma exact_order_irrelevant_witness :
  ["A"; "B"; "A"] ≡ₚ ["B"; "A"; "A"]
  /\ ExactCounter.process_all ["A"; "B"; "A"] ExactCounter.init
     = ExactCounter.process_all ["B"; "A"; "A"] ExactCounter.init.
Proof.
  assert (["A"; "B"; "A"] ≡ₚ ["B"; "A"; "A"]) as H by apply perm_swap.
  split; [exact H|].
  apply (exact_order_irrelevant ["A"; "B"; "A"] ["B"; "A"; "A"]), H.
Defined.

Lemma total_count_sum_counts counts :
  total_count counts = FrequentCounter.sum_counts counts.
Proof.
  unfold total_count, FrequentCounter.sum_counts. rewrite map_fold_foldr.
  induction (map_to_list counts) as [|[y c] l IH]; [done|].
  rewrite fmap_cons. simpl. by rewrite IH.
Qed.

Lemma exact_process_total item counts :
  total_count (ExactCounter.process item counts) = (total_count counts + 1)%Z.
Proof.
  rewrite !total_count_sum_counts. unfold ExactCounter.process.
  destruct (counts !! item) as [c|] eqn:E.
  - rewrite (sum_counts_insert_Some _ _ c) by done. lia.
  - rewrite sum_counts_insert_None by done. lia.
Qed.

(** X3: nothing is lost: the counts an ExactCounter stores after a
    pass add up to the length of the stream. *)
Theorem exact_counts_add_up stream :
  total_count (ExactCounter.process_all stream ExactCounter.init)
  = Z.of_nat (length stream).
Proof.
  induction stream as [|item stream IH] using rev_ind; [done|].
  rewrite exact_process_all_snoc, exact_process_total, IH, length_app. simpl. lia.
Qed.

End exact_table.

(** ** Rankings: what the callers of [get_top_n] can rely on *)

Section ranking_use.
Implicit Types (n : Z) (items : list (string * Z)).

Lemma slice_to_nat {A} (m : nat) (l : list A) : Py.slice_to (Z.of_nat m) l = take m l.
Proof.
  unfold Py.slice_to. rewrite (proj2 (Z.leb_le 0 (Z.of_nat m))) by lia.
  by rewrite Nat2Z.id.
Qed.

Lemma slice_to_prefix {A} n (l : list A) : Py.slice_to n l `prefix_of` l.
Proof. destruct (slice_to_take n l) as (m & -> & _). apply prefix_take. Qed.

Lemma slice_sorted_head items n :
  head_dominates items (Py.slice_to n (Py.sorted items)).
Proof.
  destruct (slice_to_prefix n (Py.sorted items)) as [rest Hrest].
  destruct (Py.slice_to n (Py.sorted items)) as [|p result]; [done|]. simpl.
  pose proof (sorted_ranked items) as Hsorted. rewrite Hrest in Hsorted.
  simpl in Hsorted. apply StronglySorted_cons in Hsorted as [Hp _].
  apply Forall_forall. intros q Hq.
  rewrite <- sorted_Permutation, Hrest in Hq. simpl in Hq.
  apply elem_of_cons in Hq as [->|Hq]; [lia|].
  rewrite Forall_forall in Hp. destruct (Hp q Hq) as [?|[? _]]; lia.
Qed.

(** X4: the first pair that [get_top_n] returns, when it returns any,
    carries the largest count of the table: no tracked item of an Exact or
    Frequent counter has a larger count, no tracked item of a Morris counter
    a larger estimate. *)
Theorem top_n_head_is_largest n (exact : gmap string Z)
    (frequent : FrequentCounter.t) (morris : gmap string N) :
  head_dominates (map_to_list exact) (ExactCounter.get_top_n n exact)
  /\ head_dominates (map_to_list (FrequentCounter.counts frequent))
                    (FrequentCounter.get_top_n n frequent)
  /\ head_dominates (MorrisCounter.estimated_counts morris)
                    (MorrisCounter.get_top_n n morris).
Proof. repeat split; apply slice_sorted_head. Qed.

Lemma slice_sorted_whole items (m : nat) :
  Py.slice_to (Z.of_nat (length items + m)) (Py.sorted items) = Py.sorted items.
Proof.
  rewrite slice_to_nat. apply take_ge.
  rewrite (Permutation_length (sorted_Permutation items)). lia.
Qed.

Lemma sorted_nil : Py.sorted [] = [].
Proof. reflexivity. Qed.

(** X5: the edges of [get_top_n], for the Exact and the Frequent
    counter alike: asked for 0 entries it returns none; on an empty table it
    returns none whatever is asked; asked for at least as many entries as
    are tracked it returns the whole table, in ranking order. *)
Theorem top_n_edges n (m : nat) (cap : Z) (exact : gmap string Z)
    (frequent : FrequentCounter.t) :
  (ExactCounter.get_top_n 0 exact = []
   /\ ExactCounter.get_top_n n ExactCounter.init = []
   /\ ExactCounter.get_top_n (Z.of_nat (size exact + m)) exact ≡ₚ map_to_list exact)
  /\ (FrequentCounter.get_top_n 0 frequent = []
      /\ FrequentCounter.get_top_n n (FrequentCounter.init cap) = []
      /\ FrequentCounter.get_top_n
           (Z.of_nat (size (FrequentCounter.counts frequent) + m)) frequent
         ≡ₚ map_to_list (FrequentCounter.counts frequent)).
Proof.
  assert (forall items, Py.slice_to 0 (Py.sorted items) = []) as Hzero.
  { intros items. by rewrite (slice_to_nat 0). }
  assert (Py.slice_to n (Py.sorted []) = @nil (string * Z)) as Hempty.
  { rewrite sorted_nil. destruct (slice_to_take n (@nil (string * Z))) as (k & -> & _).
    by destruct k. }
  split; (split; [apply Hzero|]; split).
  - unfold ExactCounter.get_top_n, ExactCounter.init. by rewrite map_to_list_empty.
  - unfold ExactCounter.get_top_n.
    rewrite <- length_map_to_list, slice_sorted_whole. apply sorted_Permutation.
  - unfold FrequentCounter.get_top_n. simpl. by rewrite map_to_list_empty.
  - unfold FrequentCounter.get_top_n.
    rewrite <- length_map_to_list, slice_sorted_whole. apply sorted_Permutation.
Qed.

Lemma slice_sorted_entries n (counts : gmap string Z) :
  NoDup (Py.slice_to n (Py.sorted (map_to_list counts))).*1
  /\ Forall (fun p => counts !! p.1 = Some p.2)
            (Py.slice_to n (Py.sorted (map_to_list counts))).
Proof.
  destruct (slice_to_take n (Py.sorted (map_to_list counts))) as (k & -> & _).
  split.
  - rewrite fmap_take.
    apply (sublist_NoDup _ (Py.sorted (map_to_list counts)).*1); [|apply sublist_take].
    rewrite sorted_Permutation. apply NoDup_fst_map_to_list.
  - apply Forall_forall. intros [y c] Hin. simpl.
    apply elem_of_map_to_list. rewrite <- sorted_Permutation.
    eapply elem_of_sublist; [exact Hin|apply sublist_take].
Qed.

(** X6: the pairs [get_top_n] returns are entries of the table: no
    item appears twice among them, and each comes with the count the table
    stores for it, which is what [query] returns. *)
Theorem top_n_entries_are_table_entries n (exact : gmap string Z)
    (frequent : FrequentCounter.t) :
  (NoDup (ExactCounter.get_top_n n exact).*1
   /\ Forall (fun p => exact !! p.1 = Some p.2 /\ ExactCounter.query p.1 exact = p.2)
             (ExactCounter.get_top_n n exact))
  /\ (NoDup (FrequentCounter.get_top_n n frequent).*1
      /\ Forall (fun p => FrequentCounter.counts frequent !! p.1 = Some p.2
                          /\ FrequentCounter.query p.1 frequent = p.2)
                (FrequentCounter.get_top_n n frequent)).
Proof.
  split; (split; [apply slice_sorted_entries|]).
  - eapply Forall_impl; [apply (slice_sorted_entries n exact)|].
    intros p Hp. split; [done|]. unfold ExactCounter.query. by rewrite Hp.
  - eapply Forall_impl; [apply (slice_sorted_entries n (FrequentCounter.counts frequent))|].
    intros p Hp. split; [done|]. unfold FrequentCounter.query. by rewrite Hp.
Qed.

(** X7: asking for more entries only extends the answer: the top [a]
    is a prefix of the top [a + b], for each of the three counters. *)
Theorem top_n_prefix (a b : nat) (exact : gmap string Z)
    (frequent : FrequentCounter.t) (morris : gmap string N) :
  ExactCounter.get_top_n (Z.of_nat a) exact
    `prefix_of` ExactCounter.get_top_n (Z.of_nat (a + b)) exact
  /\ FrequentCounter.get_top_n (Z.of_nat a) frequent
       `prefix_of` FrequentCounter.get_top_n (Z.of_nat (a + b)) frequent
  /\ MorrisCounter.get_top_n (Z.of_nat a) morris
       `prefix_of` MorrisCounter.get_top_n (Z.of_nat (a + b)) morris.
Proof.
  assert (forall items, Py.slice_to (Z.of_nat a) (Py.sorted items)
            `prefix_of` Py.slice_to (Z.of_nat (a + b)) (Py.sorted items)) as H.
  { intros items. rewrite !slice_to_nat.
    replace (take a (Py.sorted items))
      with (take a (take (a + b) (Py.sorted items))).
    - apply prefix_take.
    - rewrite take_take. f_equal. lia. }
  repeat split; apply H.
Qed.

End ranking_use.

(** ** FrequentCounter: how far and when the estimates are off *)

Section frequent_accuracy.
Implicit Types (x item : string) (stream : list string) (k : Z) (fc : FrequentCounter.t).

Lemma frequent_pass_snoc k stream item :
  frequent_pass k (stream ++ [item])
  = FrequentCounter.process item (frequent_pass k stream).
Proof. unfold frequent_pass, FrequentCounter.process_all. by rewrite foldl_snoc. Qed.

Lemma frequent_pass_capacity k stream :
  FrequentCounter.capacity (frequent_pass k stream) = k.
Proof. apply (frequent_process_all_capacity stream (FrequentCounter.init k)). Qed.

(** X8: the error of a Frequent-Count estimate is bounded: after a
    pass of a counter of positive capacity [k] over a stream of length [L],
    the estimate of every item is at least 0, and it is below the true count
    by at most [L / (k + 1)], rounded down. *)
Theorem frequent_error_bound k stream x :
  (0 < k)%Z ->
  (0 <= FrequentCounter.query x (frequent_pass k stream))%Z
  /\ (occurrences x stream - FrequentCounter.query x (frequent_pass k stream)
      <= Z.of_nat (length stream) / (k + 1))%Z.
Proof.
  intros Hk. unfold frequent_pass.
  destruct (misra_gries_run k stream [] 0 (FrequentCounter.init k) Hk
              (misra_gries_init k ltac:(lia)))
    as (d & _ & [_ Hpos] & Hd & Hsum & Hocc).
  rewrite app_nil_l in Hsum, Hocc. specialize (Hocc x).
  pose proof (sum_counts_nonneg _ Hpos) as Hnonneg.
  split.
  - unfold FrequentCounter.query.
    destruct (FrequentCounter.counts _ !! x) as [c|] eqn:E; simpl; [|lia].
    apply Hpos in E. simpl in E. lia.
  - apply Z.div_le_lower_bound; [lia|]. nia.
Qed.

Lemma frequent_error_bound_witness :
  (0 < 2)%Z
  /\ ((0 <= FrequentCounter.query "B" (frequent_pass 2 scenario_stream))%Z
      /\ (occurrences "B" scenario_stream
          - FrequentCounter.query "B" (frequent_pass 2 scenario_stream)
          <= Z.of_nat (length scenario_stream) / (2 + 1))%Z).
Proof.
  split; [lia|]. apply (frequent_error_bound 2 scenario_stream "B"). lia.
Defined.

Lemma exact_size_snoc stream item :
  size (ExactCounter.process_all stream ExactCounter.init)
  <= size (ExactCounter.process_all (stream ++ [item]) ExactCounter.init).
Proof.
  rewrite exact_process_all_snoc. unfold ExactCounter.process.
  destruct (ExactCounter.process_all stream ExactCounter.init !! item) eqn:E.
  - by rewrite map_size_insert_Some by eauto.
  - rewrite map_size_insert_None by done. lia.
Qed.

Lemma frequent_exact_when_room k stream :
  (Z.of_nat (size (ExactCounter.process_all stream ExactCounter.init)) <= k)%Z ->
  FrequentCounter.counts (frequent_pass k stream)
  = ExactCounter.process_all stream ExactCounter.init.
Proof.
  induction stream as [|item stream IH] using rev_ind; intros Hsize; [done|].
  pose proof (exact_size_snoc stream item) as Hmono.
  rewrite frequent_pass_snoc, frequent_process_counts, frequent_pass_capacity.
  rewrite IH by lia. rewrite exact_process_all_snoc in Hsize |- *.
  unfold ExactCounter.process in Hsize |- *.
  destruct (ExactCounter.process_all stream ExactCounter.init !! item) eqn:E; [done|].
  rewrite map_size_insert_None in Hsize by done.
  destruct (_ <? _)%Z eqn:Hlt; [done|]. apply Z.ltb_ge in Hlt. lia.
Qed.

(** X9: a FrequentCounter whose capacity is at least the number of
    distinct items of the stream never takes the decrement step: after the
    pass its table is the table of an ExactCounter, and every estimate is
    the true count. *)
Theorem frequent_is_exact_with_enough_capacity k stream x :
  (Z.of_nat (size (list_to_set stream : gset string)) <= k)%Z ->
  FrequentCounter.counts (frequent_pass k stream)
  = ExactCounter.process_all stream ExactCounter.init
  /\ FrequentCounter.query x (frequent_pass k stream) = occurrences x stream.
Proof.
  intros Hk.
  assert (FrequentCounter.counts (frequent_pass k stream)
          = ExactCounter.process_all stream ExactCounter.init) as Heq.
  { apply frequent_exact_when_room.
    by rewrite exact_size_distinct. }
  split; [done|].
  unfold FrequentCounter.query. rewrite Heq. apply exact_query_run.
Qed.

Lemma frequent_is_exact_with_enough_capacity_witness :
  (Z.of_nat (size (list_to_set scenario_stream : gset string)) <= 3)%Z
  /\ (FrequentCounter.counts (frequent_pass 3 scenario_stream)
      = ExactCounter.process_all scenario_stream ExactCounter.init
      /\ FrequentCounter.query "B" (frequent_pass 3 scenario_stream)
         = occurrences "B" scenario_stream).
Proof.
  assert (Z.of_nat (size (list_to_set scenario_stream : gset string)) <= 3)%Z
    as H by (vm_compute; discriminate).
  split; [exact H|].
  apply (frequent_is_exact_with_enough_capacity 3 scenario_stream "B"), H.
Defined.

Lemma frequent_process_dom item fc :
  dom (FrequentCounter.counts (FrequentCounter.process item fc))
  ⊆ {[item]} ∪ dom (FrequentCounter.counts fc).
Proof.
  rewrite frequent_process_counts.
  destruct (FrequentCounter.counts fc !! item).
  - by rewrite dom_insert_L.
  - destruct (_ <? _)%Z.
    + by rewrite dom_insert_L.
    + pose proof (dom_omap_subseteq (D := gset string)
                    FrequentCounter.decremented (FrequentCounter.counts fc)).
      set_solver.
Qed.

(** X10: a FrequentCounter only ever tracks items it was given: after
    a pass, whatever the capacity, every key of the table is an item of the
    stream; an item that is not in the stream is not tracked and its query
    is 0. *)
Theorem frequent_tracks_only_items_seen k stream x :
  x ∉ stream ->
  dom (FrequentCounter.counts (frequent_pass k stream)) ⊆ list_to_set stream
  /\ FrequentCounter.counts (frequent_pass k stream) !! x = None
  /\ FrequentCounter.query x (frequent_pass k stream) = 0%Z.
Proof.
  intros Hx.
  assert (dom (FrequentCounter.counts (frequent_pass k stream))
          ⊆ (list_to_set stream : gset string)) as Hdom.
  { clear Hx. induction stream as [|item stream IH] using rev_ind.
    - unfold frequent_pass. simpl. by rewrite dom_empty_L.
    - rewrite frequent_pass_snoc, list_to_set_snoc_L.
      etrans; [apply frequent_process_dom|].
      apply union_least; [apply union_subseteq_r|].
      etrans; [exact IH|apply union_subseteq_l]. }
  split; [done|].
  assert (FrequentCounter.counts (frequent_pass k stream) !! x = None) as Hnone.
  { apply not_elem_of_dom. intros Hin%Hdom.
    by apply (elem_of_list_to_set (C := gset string)) in Hin. }
  split; [done|]. unfold FrequentCounter.query. by rewrite Hnone.
Qed.

Lemma frequent_tracks_only_items_seen_witness :
  ("D" ∉ scenario_stream)
  /\ FrequentCounter.query "D" (frequent_pass 2 scenario_stream) = 0%Z.
Proof.
  assert ("D" ∉ scenario_stream) as H
    by (apply (bool_decide_unpack ("D" ∉ scenario_stream)); by vm_compute).
  split; [exact H|].
  apply (frequent_tracks_only_items_seen 2 scenario_stream "D"), H.
Defined.

(** X11: the decrement step. When the arriving item is not tracked
    and the table of a counter in a valid state has no room, [process]
    lowers every estimate by one, down to 0 at least: the items that stood
    at 1 leave the table, the others stay, and the arriving item is not
    stored. *)
Theorem frequent_full_table_step item fc x :
  frequent_bounded fc ->
  FrequentCounter.counts fc !! item = None ->
  (FrequentCounter.capacity fc <= Z.of_nat (size (FrequentCounter.counts fc)))%Z ->
  FrequentCounter.query x (FrequentCounter.process item fc)
  = Z.max 0 (FrequentCounter.query x fc - 1)
  /\ (is_Some (FrequentCounter.counts (FrequentCounter.process item fc) !! x)
      <-> (1 < FrequentCounter.query x fc)%Z)
  /\ FrequentCounter.counts (FrequentCounter.process item fc) !! item = None.
Proof.
  intros [_ Hpos] Hitem Hfull.
  pose proof (frequent_process_counts item fc) as Hcounts.
  rewrite Hitem in Hcounts.
  rewrite (proj2 (Z.ltb_ge _ _) Hfull) in Hcounts.
  unfold FrequentCounter.query. rewrite Hcounts, query_decrement, !lookup_omap.
  rewrite Hitem. split; [|split; [|done]].
  - destruct (FrequentCounter.counts fc !! x) as [c|] eqn:E; simpl; [|lia].
    apply Hpos in E. simpl in E. lia.
  - destruct (FrequentCounter.counts fc !! x) as [c|] eqn:E; simpl.
    + apply Hpos in E. simpl in E. unfold FrequentCounter.decremented.
      destruct (decide (c = 1%Z)); split; try lia; eauto; intros [? ?]; done.
    + split; [intros [? ?]; done|lia].
Qed.

Lemma frequent_full_table_step_witness :
  (frequent_bounded (frequent_pass 1 ["A"; "A"])
   /\ FrequentCounter.counts (frequent_pass 1 ["A"; "A"]) !! "B" = None
   /\ (FrequentCounter.capacity (frequent_pass 1 ["A"; "A"])
       <= Z.of_nat (size (FrequentCounter.counts (frequent_pass 1 ["A"; "A"]))))%Z)
  /\ FrequentCounter.query "A" (FrequentCounter.process "B" (frequent_pass 1 ["A"; "A"]))
     = Z.max 0 (FrequentCounter.query "A" (frequent_pass 1 ["A"; "A"]) - 1).
Proof.
  assert (frequent_bounded (frequent_pass 1 ["A"; "A"])
   /\ FrequentCounter.counts (frequent_pass 1 ["A"; "A"]) !! "B" = None
   /\ (FrequentCounter.capacity (frequent_pass 1 ["A"; "A"])
       <= Z.of_nat (size (FrequentCounter.counts (frequent_pass 1 ["A"; "A"]))))%Z)
    as H.
  { split; [|split; [reflexivity|by vm_compute]].
    apply frequent_process_all_bounded, frequent_init_bounded. lia. }
  split; [exact H|].
  apply (frequent_full_table_step "B" (frequent_pass 1 ["A"; "A"]) "A"); apply H.
Defined.

(** X12: a ranking of a FrequentCounter of positive capacity [k] never
    has more than [k] entries, whatever number is asked for. *)
Theorem frequent_top_n_at_most_capacity k stream n :
  (0 < k)%Z ->
  (Z.of_nat (length (FrequentCounter.get_top_n n (frequent_pass k stream))) <= k)%Z.
Proof.
  intros Hk.
  destruct (frequent_process_all_bounded stream (FrequentCounter.init k)
              (frequent_init_bounded k ltac:(lia))) as [Hsize _].
  fold (frequent_pass k stream) in Hsize. rewrite frequent_pass_capacity in Hsize.
  unfold FrequentCounter.get_top_n.
  destruct (slice_to_prefix n (Py.sorted (map_to_list
              (FrequentCounter.counts (frequent_pass k stream))))) as [rest Hrest].
  apply (f_equal length) in Hrest.
  rewrite length_app, (Permutation_length (sorted_Permutation _)) in Hrest.
  rewrite length_map_to_list in Hrest. lia.
Qed.

Lemma frequent_top_n_at_most_capacity_witness :
  (0 < 2)%Z
  /\ (Z.of_nat (length (FrequentCounter.get_top_n 15 (frequent_pass 2 scenario_stream)))
      <= 2)%Z.
Proof.
  split; [lia|]. apply (frequent_top_n_at_most_capacity 2 scenario_stream 15). lia.
Defined.

End frequent_accuracy.

(** ** MorrisCounter: what one call and one run can do *)

Section morris_runs.
Implicit Types (counts : gmap string N) (item x : string) (u : Q).
Implicit Types (calls : list (string * Q)).

(** The three ways a call can go, by the exponent [k] that [query] reads for
    the arriving item. *)
Lemma morris_process_cases u item counts :
  ((1023 < MorrisCounter.exponent item counts)%N
   /\ MorrisCounter.process u item counts = (counts, Raises OverflowError))
  \/ ((MorrisCounter.exponent item counts <= 1023)%N
      /\ MorrisCounter.draw_below u
           (MorrisCounter.probability (MorrisCounter.exponent item counts)) = true
      /\ MorrisCounter.process u item counts
         = (<[item := (MorrisCounter.exponent item counts + 1)%N]> counts, Returns tt))
  \/ ((MorrisCounter.exponent item counts <= 1023)%N
      /\ MorrisCounter.draw_below u
           (MorrisCounter.probability (MorrisCounter.exponent item counts)) = false
      /\ MorrisCounter.process u item counts
         = (<[item := MorrisCounter.exponent item counts]> counts, Returns tt)).
Proof.
  unfold MorrisCounter.process, MorrisCounter.exponent, MorrisCounter.max_float_exponent.
  destruct (counts !! item) as [k|] eqn:E; simpl.
  - rewrite E. destruct (N.ltb_spec 1023 k) as [Hk|Hk]; [by left|right].
    destruct (MorrisCounter.draw_below _ _); [left|right]; (split; [done|]);
      (split; [done|]); [done|]. by rewrite insert_id.
  - rewrite lookup_insert_eq. simpl. right.
    destruct (MorrisCounter.draw_below _ _); [left|right]; (split; [lia|]);
      (split; [done|]); [|done]. by rewrite insert_insert_eq.
Qed.

Lemma morris_process_outcome u item counts :
  (MorrisCounter.process u item counts).2
  = (if decide (1023 < MorrisCounter.exponent item counts)%N
     then Raises OverflowError else Returns tt).
Proof.
  destruct (morris_process_cases u item counts)
    as [[Hk ->]|[(Hk & _ & ->)|(Hk & _ & ->)]]; simpl.
  - by rewrite decide_True.
  - by rewrite decide_False by lia.
  - by rewrite decide_False by lia.
Qed.


Lemma morris_process_frame u item counts x :
  x <> item -> (MorrisCounter.process u item counts).1 !! x = counts !! x.
Proof.
  intros Hne.
  destruct (morris_process_cases u item counts)
    as [[_ ->]|[(_ & _ & ->)|(_ & _ & ->)]]; simpl; [done|..];
    by rewrite lookup_insert_ne.
Qed.

(** X14: the counters of different items never interact: a call of
    [process] leaves the entry of every item but the arriving one as it
    was. *)
Theorem morris_process_other_items u item counts x :
  x <> item ->
  (MorrisCounter.process u item counts).1 !! x = counts !! x
  /\ MorrisCounter.query x (MorrisCounter.process u item counts).1
     = MorrisCounter.query x counts.
Proof.
  intros Hne. pose proof (morris_process_frame u item counts x Hne) as Hx.
  split; [done|]. unfold MorrisCounter.query, MorrisCounter.exponent. by rewrite Hx.
Qed.

Lemma morris_process_other_items_witness :
  "A" <> "B"
  /\ MorrisCounter.query "A" (MorrisCounter.process 0 "B" {["A" := 3%N]}).1
     = MorrisCounter.query "A" {["A" := 3%N]}.
Proof.
  assert ("A" <> "B") as H by discriminate.
  split; [exact H|].
  apply (morris_process_other_items 0 "B" {["A" := 3%N]} "A"), H.
Defined.

Lemma morris_process_exponent_le u item counts x :
  (MorrisCounter.exponent x (MorrisCounter.process u item counts).1
   <= MorrisCounter.exponent x counts + (if decide (item = x) then 1 else 0))%N.
Proof.
  destruct (decide (item = x)) as [->|Hne].
  - destruct (morris_process_exponent u x counts x); lia.
  - unfold MorrisCounter.exponent.
    rewrite (morris_process_frame u item counts x ltac:(done)). lia.
Qed.

(** Number of calls of a run that are for [x]. *)
Lemma occurrences_calls_cons x item u calls :
  occurrences x ((item, u) :: calls).*1
  = ((if decide (item = x) then 1 else 0) + occurrences x calls.*1)%Z.
Proof. rewrite fmap_cons. apply occurrences_cons. Qed.

Lemma morris_run_exponent_le calls : forall counts x,
  (Z.of_N (MorrisCounter.exponent x (MorrisCounter.process_all calls counts).1)
   <= Z.of_N (MorrisCounter.exponent x counts) + occurrences x calls.*1)%Z.
Proof.
  induction calls as [|[item u] calls IH]; intros counts x.
  - simpl. rewrite occurrences_nil. lia.
  - rewrite occurrences_calls_cons. simpl.
    pose proof (morris_process_exponent_le u item counts x) as Hstep.
    pose proof (occurrences_nonneg x calls.*1).
    destruct (MorrisCounter.process u item counts) as [counts' [[]|e]]; simpl in *.
    + specialize (IH counts' x). destruct (decide (item = x)); lia.
    + destruct (decide (item = x)); lia.
Qed.

(** X15: a run in which no item arrives more than 1024 times never
    raises, whatever is drawn: the exponent of an item cannot exceed the
    number of calls made for it. *)
Theorem morris_run_returns calls :
  (forall x, occurrences x calls.*1 <= 1024)%Z ->
  (MorrisCounter.process_all calls MorrisCounter.init).2 = Returns tt.
Proof.
  assert (forall calls counts,
            (forall x, Z.of_N (MorrisCounter.exponent x counts)
                       + occurrences x calls.*1 <= 1024)%Z ->
            (MorrisCounter.process_all calls counts).2 = Returns tt) as Hgen.
  { clear calls. induction calls as [|[item u] calls IH]; intros counts Hbound; [done|].
    assert (forall x, Z.of_N (MorrisCounter.exponent x counts)
                      + ((if decide (item = x) then 1 else 0)
                         + occurrences x calls.*1) <= 1024)%Z as Hb.
    { intros x. rewrite <- (occurrences_calls_cons x item u). apply Hbound. }
    clear Hbound. simpl.
    pose proof (Hb item) as Hitem.
    rewrite decide_True in Hitem by done.
    pose proof (occurrences_nonneg item calls.*1).
    pose proof (morris_process_outcome u item counts) as Hraise.
    rewrite decide_False in Hraise by lia.
    pose proof (fun x => morris_process_exponent_le u item counts x) as Hstep.
    destruct (MorrisCounter.process u item counts) as [counts' [[]|e]];
      simpl in *; [|done].
    apply IH. intros x. specialize (Hb x). specialize (Hstep x).
    destruct (decide (item = x)); lia. }
  intros Hbound. apply Hgen. intros x.
  unfold MorrisCounter.exponent, MorrisCounter.init. rewrite lookup_empty. simpl.
  apply Hbound.
Qed.

Lemma occurrences_le_length x (stream : list string) :
  (occurrences x stream <= Z.of_nat (length stream))%Z.
Proof.
  induction stream as [|y stream IH]; [done|].
  rewrite occurrences_cons. simpl length. destruct (decide (y = x)); lia.
Qed.

Lemma morris_run_returns_witness :
  (forall x, occurrences x scenario_calls.*1 <= 1024)%Z
  /\ (MorrisCounter.process_all scenario_calls
        MorrisCounter.init).2 = Returns tt.
Proof.
  assert (forall x, occurrences x scenario_calls.*1 <= 1024)%Z as H.
  { intros x. etrans; [apply occurrences_le_length|]. vm_compute. discriminate. }
  split; [exact H|].
  apply (morris_run_returns scenario_calls), H.
Defined.

Lemma morris_exponent_lookup counts x :
  (0 < MorrisCounter.exponent x counts)%N -> is_Some (counts !! x).
Proof.
  unfold MorrisCounter.exponent. destruct (counts !! x); [eauto|simpl; lia].
Qed.

Lemma morris_process_tracks u item counts :
  is_Some ((MorrisCounter.process u item counts).1 !! item).
Proof.
  destruct (morris_process_cases u item counts)
    as [[Hk ->]|[(_ & _ & ->)|(_ & _ & ->)]]; simpl.
  - apply morris_exponent_lookup. lia.
  - rewrite lookup_insert_eq. eauto.
  - rewrite lookup_insert_eq. eauto.
Qed.

Lemma morris_process_keeps u item counts x :
  is_Some (counts !! x) -> is_Some ((MorrisCounter.process u item counts).1 !! x).
Proof.
  intros Hx. destruct (decide (x = item)) as [->|Hne].
  - apply morris_process_tracks.
  - by rewrite (morris_process_frame u item counts x Hne).
Qed.

Lemma morris_run_keeps calls : forall counts x,
  is_Some (counts !! x) -> is_Some ((MorrisCounter.process_all calls counts).1 !! x).
Proof.
  induction calls as [|[item u] calls IH]; intros counts x Hx; [done|]. simpl.
  pose proof (morris_process_keeps u item counts x Hx) as Hstep.
  destruct (MorrisCounter.process u item counts) as [counts' [[]|e]]; simpl in *.
  - by apply IH.
  - done.
Qed.

(** An item for which a call was made is in the table when the run
    returns. *)
Lemma morris_run_tracks calls : forall counts x,
  x ∈ calls.*1 ->
  (MorrisCounter.process_all calls counts).2 = Returns tt ->
  is_Some ((MorrisCounter.process_all calls counts).1 !! x).
Proof.
  induction calls as [|[item u] calls IH]; intros counts x Hx Hret.
  - by apply elem_of_nil in Hx.
  - rewrite fmap_cons in Hx. simpl in Hx, Hret |- *.
    pose proof (morris_process_tracks u item counts) as Hitem.
    destruct (MorrisCounter.process u item counts) as [counts' [[]|e]];
      simpl in *; [|done].
    apply elem_of_cons in Hx as [->|Hx].
    + by apply morris_run_keeps.
    + by apply IH.
Qed.

(** With a draw below 1, no call leaves an exponent at 0. *)
Lemma morris_process_positive u item counts :
  (u < 1)%Q ->
  map_Forall (fun _ k => (1 <= k)%N) counts ->
  map_Forall (fun _ k => (1 <= k)%N) (MorrisCounter.process u item counts).1.
Proof.
  intros Hu Hpos.
  destruct (morris_process_cases u item counts)
    as [[_ ->]|[(_ & _ & ->)|(_ & Hdraw & ->)]]; simpl; [done| |].
  - apply map_Forall_insert_2; [lia|done].
  - apply map_Forall_insert_2; [|done].
    destruct (N.eq_dec (MorrisCounter.exponent item counts) 0%N) as [H0|]; [|lia].
    rewrite H0, draw_below_one in Hdraw by done. done.
Qed.

Lemma morris_run_positive calls : forall counts,
  Forall (fun c => (0 <= c.2)%Q /\ (c.2 < 1)%Q) calls ->
  map_Forall (fun _ k => (1 <= k)%N) counts ->
  map_Forall (fun _ k => (1 <= k)%N) (MorrisCounter.process_all calls counts).1.
Proof.
  induction calls as [|[item u] calls IH]; intros counts Hdraws Hpos; [done|].
  apply Forall_cons in Hdraws as [[_ Hu] Hdraws]. simpl in Hu |- *.
  pose proof (morris_process_positive u item counts Hu Hpos) as Hstep.
  destruct (MorrisCounter.process u item counts) as [counts' [[]|e]]; simpl in *.
  - by apply IH.
  - done.
Qed.

(** X16: the range of a Morris estimate. After a run that returns, in
    which every drawn value is in [0, 1), an item that arrived [c >= 1]
    times is tracked and its estimate is between 1 and [2^c - 1]. *)
Theorem morris_estimate_range calls x :
  Forall (fun c => (0 <= c.2)%Q /\ (c.2 < 1)%Q) calls ->
  (MorrisCounter.process_all calls MorrisCounter.init).2 = Returns tt ->
  x ∈ calls.*1 ->
  is_Some ((MorrisCounter.process_all calls MorrisCounter.init).1 !! x)
  /\ (1 <= MorrisCounter.query x (MorrisCounter.process_all calls MorrisCounter.init).1
       <= 2 ^ occurrences x calls.*1 - 1)%Z.
Proof.
  intros Hdraws Hret Hx.
  pose proof (morris_run_tracks calls MorrisCounter.init x Hx Hret) as [k Hk].
  pose proof (morris_run_positive calls MorrisCounter.init Hdraws (map_Forall_empty _))
    as Hpos.
  pose proof (morris_run_exponent_le calls MorrisCounter.init x) as Hle.
  split; [eauto|].
  unfold MorrisCounter.query, MorrisCounter.exponent in *.
  rewrite Hk in *. apply Hpos in Hk. unfold MorrisCounter.init in Hle.
  rewrite lookup_empty in Hle. simpl in *.
  assert (2 ^ 1 <= 2 ^ Z.of_N k)%Z by (apply Z.pow_le_mono_r; lia).
  assert (2 ^ Z.of_N k <= 2 ^ occurrences x calls.*1)%Z
    by (apply Z.pow_le_mono_r; lia).
  lia.
Qed.

Lemma morris_estimate_range_witness :
  (Forall (fun c => (0 <= c.2)%Q /\ (c.2 < 1)%Q) scenario_calls
   /\ (MorrisCounter.process_all scenario_calls MorrisCounter.init).2 = Returns tt
   /\ "A" ∈ scenario_calls.*1)
  /\ (1 <= MorrisCounter.query "A"
             (MorrisCounter.process_all scenario_calls MorrisCounter.init).1
       <= 2 ^ occurrences "A" scenario_calls.*1 - 1)%Z.
Proof.
  assert (Forall (fun c => (0 <= c.2)%Q /\ (c.2 < 1)%Q) scenario_calls
   /\ (MorrisCounter.process_all scenario_calls MorrisCounter.init).2 = Returns tt
   /\ "A" ∈ scenario_calls.*1) as H.
  { split; [|split; [reflexivity|left]].
    repeat constructor; simpl; discriminate. }
  split; [exact H|].
  apply (morris_estimate_range scenario_calls "A"); apply H.
Defined.

Lemma morris_run_other_items calls : forall counts x,
  x ∉ calls.*1 ->
  (MorrisCounter.process_all calls counts).1 !! x = counts !! x.
Proof.
  induction calls as [|[item u] calls IH]; intros counts x Hx; [done|].
  rewrite fmap_cons in Hx. apply not_elem_of_cons in Hx as [Hne Hx]. simpl in *.
  pose proof (morris_process_frame u item counts x Hne) as Hstep.
  destruct (MorrisCounter.process u item counts) as [counts' [[]|e]]; simpl in *.
  - by rewrite IH.
  - done.
Qed.

(** X17: a MorrisCounter only tracks items it was given: an item for
    which no call was made is not in the table after the run, however the
    run ended, and its query is 0. *)
Theorem morris_tracks_only_items_seen calls x :
  x ∉ calls.*1 ->
  (MorrisCounter.process_all calls MorrisCounter.init).1 !! x = None
  /\ MorrisCounter.query x (MorrisCounter.process_all calls MorrisCounter.init).1 = 0%Z.
Proof.
  intros Hx.
  pose proof (morris_run_other_items calls MorrisCounter.init x Hx) as Hnone.
  unfold MorrisCounter.init in Hnone at 2. rewrite lookup_empty in Hnone.
  split; [done|]. unfold MorrisCounter.query, MorrisCounter.exponent.
  by rewrite Hnone.
Qed.

Lemma morris_tracks_only_items_seen_witness :
  ("C" ∉ scenario_calls.*1)
  /\ MorrisCounter.query "C"
       (MorrisCounter.process_all scenario_calls MorrisCounter.init).1 = 0%Z.
Proof.
  assert ("C" ∉ scenario_calls.*1) as H
    by (apply (bool_decide_unpack ("C" ∉ scenario_calls.*1)); by vm_compute).
  split; [exact H|].
  apply (morris_tracks_only_items_seen scenario_calls "C"), H.
Defined.

Lemma draw_not_below_half u :
  (1 # 2 <= u)%Q -> MorrisCounter.draw_below u (MorrisCounter.probability 1) = false.
Proof.
  intros Hu. unfold MorrisCounter.draw_below.
  change (MorrisCounter.probability 1) with (1 # 2)%Q.
  destruct (u ?= 1 # 2)%Q eqn:E; try done.
  apply Qlt_alt in E. by apply Qlt_not_le in E.
Qed.

Lemma draw_zero_below k : MorrisCounter.draw_below 0 (MorrisCounter.probability k) = true.
Proof.
  unfold MorrisCounter.draw_below, MorrisCounter.probability.
  assert (0 < 1 / inject_Z (2 ^ Z.of_N k))%Q as Hlt.
  { apply Qlt_shift_div_l.
    - change 0%Q with (inject_Z 0). rewrite <- Zlt_Qlt.
      apply Z.pow_pos_nonneg; lia.
    - rewrite Qmult_0_l. reflexivity. }
  pose proof (proj1 (Qlt_alt 0 (1 / inject_Z (2 ^ Z.of_N k))) Hlt) as Hc.
  by rewrite Hc.
Qed.

(** When every draw is at least 1/2, a table whose exponents are all 1
    stays such: the arriving item ends at 1, new or not. *)
Lemma morris_process_high_draw u item counts :
  (1 # 2 <= u)%Q -> (u < 1)%Q ->
  map_Forall (fun _ k => k = 1%N) counts ->
  MorrisCounter.process u item counts = (<[item := 1%N]> counts, Returns tt).
Proof.
  intros Hlo Hhi Hone.
  assert (MorrisCounter.exponent item counts = 0%N
          \/ MorrisCounter.exponent item counts = 1%N) as Hk.
  { unfold MorrisCounter.exponent. destruct (counts !! item) as [k|] eqn:E; [|by left].
    right. by apply Hone in E. }
  destruct (morris_process_cases u item counts)
    as [[Hbig _]|[(_ & Hdraw & ->)|(_ & Hdraw & ->)]]; [lia|..];
    destruct Hk as [Hk|Hk]; rewrite Hk in *.
  - done.
  - by rewrite draw_not_below_half in Hdraw.
  - by rewrite draw_below_one in Hdraw.
  - done.
Qed.

Lemma morris_run_high_draws calls : forall counts,
  Forall (fun c => (1 # 2 <= c.2)%Q /\ (c.2 < 1)%Q) calls ->
  map_Forall (fun _ k => k = 1%N) counts ->
  (MorrisCounter.process_all calls counts).2 = Returns tt
  /\ map_Forall (fun _ k => k = 1%N) (MorrisCounter.process_all calls counts).1.
Proof.
  induction calls as [|[item u] calls IH]; intros counts Hdraws Hone; [done|].
  apply Forall_cons in Hdraws as [[Hlo Hhi] Hdraws]. simpl in Hlo, Hhi |- *.
  rewrite morris_process_high_draw by done.
  apply IH; [done|]. by apply map_Forall_insert_2.
Qed.

(** X18: a run can stay at the bottom of the range. When every drawn
    value is in [1/2, 1), the run returns and every item that arrived is
    estimated at exactly 1, however often it arrived. *)
Theorem morris_high_draws_estimate_one calls x :
  Forall (fun c => (1 # 2 <= c.2)%Q /\ (c.2 < 1)%Q) calls ->
  x ∈ calls.*1 ->
  (MorrisCounter.process_all calls MorrisCounter.init).2 = Returns tt
  /\ MorrisCounter.query x (MorrisCounter.process_all calls MorrisCounter.init).1 = 1%Z.
Proof.
  intros Hdraws Hx.
  destruct (morris_run_high_draws calls MorrisCounter.init Hdraws (map_Forall_empty _))
    as [Hret Hone].
  split; [done|].
  destruct (morris_run_tracks calls MorrisCounter.init x Hx Hret) as [k Hk].
  unfold MorrisCounter.query, MorrisCounter.exponent. rewrite Hk.
  apply Hone in Hk. by subst.
Qed.

Lemma morris_high_draws_estimate_one_witness :
  (Forall (fun c => (1 # 2 <= c.2)%Q /\ (c.2 < 1)%Q)
          [("A", (1 # 2)%Q); ("A", (3 # 4)%Q); ("A", (1 # 2)%Q)]
   /\ "A" ∈ [("A", (1 # 2)%Q); ("A", (3 # 4)%Q); ("A", (1 # 2)%Q)].*1)
  /\ MorrisCounter.query "A"
       (MorrisCounter.process_all [("A", (1 # 2)%Q); ("A", (3 # 4)%Q); ("A", (1 # 2)%Q)]
          MorrisCounter.init).1 = 1%Z.
Proof.
  assert (Forall (fun c => (1 # 2 <= c.2)%Q /\ (c.2 < 1)%Q)
          [("A", (1 # 2)%Q); ("A", (3 # 4)%Q); ("A", (1 # 2)%Q)]
   /\ "A" ∈ [("A", (1 # 2)%Q); ("A", (3 # 4)%Q); ("A", (1 # 2)%Q)].*1) as H.
  { split; [|left]. repeat constructor; simpl; discriminate. }
  split; [exact H|].
  apply (morris_high_draws_estimate_one
           [("A", (1 # 2)%Q); ("A", (3 # 4)%Q); ("A", (1 # 2)%Q)] "A"); apply H.
Defined.

Lemma morris_run_zero_draws calls : forall counts x,
  Forall (fun c => c.2 = 0%Q) calls ->
  (forall y, Z.of_N (MorrisCounter.exponent y counts) + occurrences y calls.*1 <= 1024)%Z ->
  Z.of_N (MorrisCounter.exponent x (MorrisCounter.process_all calls counts).1)
  = (Z.of_N (MorrisCounter.exponent x counts) + occurrences x calls.*1)%Z.
Proof.
  induction calls as [|[item u] calls IH]; intros counts x Hdraws Hbound.
  - simpl. rewrite occurrences_nil. lia.
  - apply Forall_cons in Hdraws as [Hu Hdraws]. simpl in Hu. subst u.
    assert (forall y, Z.of_N (MorrisCounter.exponent y counts)
                      + ((if decide (item = y) then 1 else 0)
                         + occurrences y calls.*1) <= 1024)%Z as Hb.
    { intros y. rewrite <- (occurrences_calls_cons y item 0%Q). apply Hbound. }
    rewrite occurrences_calls_cons. clear Hbound. simpl.
    pose proof (Hb item) as Hitem. rewrite decide_True in Hitem by done.
    pose proof (occurrences_nonneg item calls.*1).
    destruct (morris_process_cases 0%Q item counts)
      as [[Hbig _]|[(_ & _ & ->)|(_ & Hdraw & _)]]; [lia| |].
    + rewrite IH; [|done|].
      * unfold MorrisCounter.exponent at 1.
        destruct (decide (item = x)) as [->|Hne].
        -- rewrite lookup_insert_eq. simpl. lia.
        -- rewrite lookup_insert_ne by done. fold (MorrisCounter.exponent x counts). lia.
      * intros y. specialize (Hb y). unfold MorrisCounter.exponent at 1.
        destruct (decide (item = y)) as [->|Hne].
        -- rewrite lookup_insert_eq. simpl. lia.
        -- rewrite lookup_insert_ne by done. fold (MorrisCounter.exponent y counts). lia.
    + by rewrite draw_zero_below in Hdraw.
Qed.

(** X19: a run can reach the top of the range. When every drawn value
    is 0 and no item arrives more than 1024 times, every call increments:
    the exponent of an item is the number of times it arrived, and its
    estimate is [2^c - 1] for an item that arrived [c] times. *)
Theorem morris_zero_draws_estimate calls x :
  Forall (fun c => c.2 = 0%Q) calls ->
  (forall y, occurrences y calls.*1 <= 1024)%Z ->
  MorrisCounter.query x (MorrisCounter.process_all calls MorrisCounter.init).1
  = (2 ^ occurrences x calls.*1 - 1)%Z.
Proof.
  intros Hdraws Hbound.
  pose proof (morris_run_zero_draws calls MorrisCounter.init x Hdraws) as Hexp.
  unfold MorrisCounter.query. rewrite Hexp.
  - unfold MorrisCounter.exponent, MorrisCounter.init. by rewrite lookup_empty.
  - intros y. unfold MorrisCounter.exponent, MorrisCounter.init.
    rewrite lookup_empty. simpl. apply Hbound.
Qed.

Lemma morris_zero_draws_estimate_witness :
  (Forall (fun c => c.2 = 0%Q) [("A", 0%Q); ("B", 0%Q); ("A", 0%Q)]
   /\ (forall y, occurrences y [("A", 0%Q); ("B", 0%Q); ("A", 0%Q)].*1 <= 1024)%Z)
  /\ MorrisCounter.query "A"
       (MorrisCounter.process_all [("A", 0%Q); ("B", 0%Q); ("A", 0%Q)]
          MorrisCounter.init).1
     = (2 ^ occurrences "A" [("A", 0%Q); ("B", 0%Q); ("A", 0%Q)].*1 - 1)%Z.
Proof.
  assert (Forall (fun c => c.2 = 0%Q) [("A", 0%Q); ("B", 0%Q); ("A", 0%Q)]
   /\ (forall y, occurrences y [("A", 0%Q); ("B", 0%Q); ("A", 0%Q)].*1 <= 1024)%Z)
    as H.
  { split; [by repeat constructor|].
    intros y. etrans; [apply occurrences_le_length|]. vm_compute. discriminate. }
  split; [exact H|].
  apply (morris_zero_draws_estimate [("A", 0%Q); ("B", 0%Q); ("A", 0%Q)] "A"); apply H.
Defined.

End morris_runs.

(** ** The harness: the baseline and the capacity table *)

Section harness.
Implicit Types (stream : list string) (capacities : list Z) (name : string).

Lemma dict_of_pairs_snoc (pairs : list (string * Z)) p :
  dict_of_pairs (pairs ++ [p]) = <[p.1 := p.2]> (dict_of_pairs pairs).
Proof. unfold dict_of_pairs. by rewrite foldl_snoc. Qed.

Lemma dict_of_pairs_lookup (pairs : list (string * Z)) name count :
  NoDup pairs.*1 ->
  dict_of_pairs pairs !! name = Some count <-> (name, count) ∈ pairs.
Proof.
  induction pairs as [|[name' count'] pairs IH] using rev_ind; intros Hnd.
  - unfold dict_of_pairs. simpl. rewrite lookup_empty. split; [done|].
    by intros ?%elem_of_nil.
  - rewrite fmap_app in Hnd. apply NoDup_app in Hnd as (Hnd & Hfresh & _).
    rewrite dict_of_pairs_snoc, elem_of_app, list_elem_of_singleton. simpl.
    destruct (decide (name' = name)) as [->|Hne].
    + rewrite lookup_insert_eq. split.
      * intros [= ->]. by right.
      * intros [Hin|[= ->]]; [|done]. exfalso.
        apply (Hfresh name); [|by left].
        apply list_elem_of_fmap. by exists (name, count).
    + rewrite lookup_insert_ne, IH by done. split; [by left|].
      intros [?|[= ? ?]]; [done|]. by subst.
Qed.

Lemma dict_of_pairs_size (pairs : list (string * Z)) :
  NoDup pairs.*1 -> size (dict_of_pairs pairs) = length pairs.
Proof.
  induction pairs as [|[name' count'] pairs IH] using rev_ind; intros Hnd; [done|].
  rewrite fmap_app in Hnd. apply NoDup_app in Hnd as (Hnd & Hfresh & _).
  rewrite dict_of_pairs_snoc, length_app. simpl.
  assert (dict_of_pairs pairs !! name' = None) as Hnone.
  { destruct (dict_of_pairs pairs !! name') as [c|] eqn:E; [|done].
    apply dict_of_pairs_lookup in E; [|done]. exfalso.
    apply (Hfresh name'); [|by left]. apply list_elem_of_fmap. by exists (name', c). }
  rewrite map_size_insert_None, IH by done. lia.
Qed.

Lemma baseline_entries stream :
  NoDup (run_exact_benchmark stream).1.*1
  /\ Forall (fun p => p.1 ∈ stream /\ p.2 = occurrences p.1 stream)
            (run_exact_benchmark stream).1.
Proof.
  unfold run_exact_benchmark. simpl.
  pose proof (slice_sorted_entries DISPLAY_TOP_N
                (ExactCounter.process_all stream ExactCounter.init)) as [Hnd Hentries].
  split; [done|].
  eapply Forall_impl; [exact Hentries|]. intros [y c]. simpl.
  rewrite exact_lookup. destruct (decide (y ∈ stream)); [|done].
  by intros [= <-].
Qed.

(** X20: the baseline of the harness. [run_exact_benchmark] returns
    at most [DISPLAY_TOP_N] = 15 pairs; each pair holds an item of the
    stream with its number of occurrences; and the dictionary returned with
    them has exactly these pairs as its entries, so a lookup in it gives the
    count that the ranking shows. *)
Theorem run_exact_benchmark_baseline stream name count :
  length (run_exact_benchmark stream).1 <= 15
  /\ Forall (fun p => p.1 ∈ stream /\ p.2 = occurrences p.1 stream)
            (run_exact_benchmark stream).1
  /\ ((run_exact_benchmark stream).2 !! name = Some count
      <-> (name, count) ∈ (run_exact_benchmark stream).1)
  /\ size (run_exact_benchmark stream).2 = length (run_exact_benchmark stream).1.
Proof.
  destruct (baseline_entries stream) as [Hnd Hentries].
  split; [|split; [done|split]].
  - unfold run_exact_benchmark, ExactCounter.get_top_n. simpl.
    change DISPLAY_TOP_N with (Z.of_nat 15).
    rewrite slice_to_nat, length_take. lia.
  - by apply dict_of_pairs_lookup.
  - by apply dict_of_pairs_size.
Qed.

Lemma results_by_capacity_lookup capacities stream (cap : Z) :
  results_by_capacity capacities stream !! cap
  = if decide (cap ∈ capacities) then Some (frequent_pass cap stream) else None.
Proof.
  induction capacities as [|c capacities IH] using rev_ind.
  - unfold results_by_capacity. simpl. rewrite lookup_empty.
    by destruct (decide (cap ∈ [])) as [?%elem_of_nil|].
  - unfold results_by_capacity in *. rewrite foldl_snoc.
    destruct (decide (c = cap)) as [->|Hne].
    + rewrite lookup_insert_eq, decide_True; [done|].
      apply elem_of_app. right. by left.
    + rewrite lookup_insert_ne, IH by done.
      destruct (decide (cap ∈ capacities)) as [Hin|Hnin].
      * rewrite decide_True; [done|]. apply elem_of_app. by left.
      * rewrite decide_False; [done|].
        intros [?|?%list_elem_of_singleton]%elem_of_app; done.
Qed.

(** A row never fails: every capacity of the sweep is a key of the
    dictionary of results. *)
Lemma frequent_row_returns capacities stream (entry : string * Z) :
  frequent_row capacities (results_by_capacity capacities stream) entry
  = Returns (entry.1, entry.2,
             (fun cap => FrequentCounter.query entry.1 (frequent_pass cap stream))
               <$> capacities).
Proof.
  unfold frequent_row.
  rewrite (mapM_Some_2 _ capacities
             ((fun cap => FrequentCounter.query entry.1 (frequent_pass cap stream))
                <$> capacities)); [done|].
  apply Forall2_fmap_r, Forall_Forall2_diag, Forall_forall.
  intros cap Hcap. by rewrite results_by_capacity_lookup, decide_True.
Qed.

Lemma frequent_query_nonneg k stream name :
  (0 <= FrequentCounter.query name (frequent_pass k stream))%Z.
Proof.
  destruct (Z_lt_le_dec 0 k) as [Hk|Hk].
  - destruct (frequent_process_all_bounded stream (FrequentCounter.init k)
                (frequent_init_bounded k ltac:(lia))) as [_ Hpos].
    fold (frequent_pass k stream) in Hpos. unfold FrequentCounter.query.
    destruct (FrequentCounter.counts _ !! name) as [c|] eqn:E; simpl; [|lia].
    apply Hpos in E. simpl in E. lia.
  - assert (frequent_pass k stream = FrequentCounter.init k) as ->.
    { unfold frequent_pass, FrequentCounter.process_all.
      induction stream as [|item stream IH]; simpl; [done|].
      by rewrite frequent_process_no_room. }
    unfold FrequentCounter.query. simpl. by rewrite lookup_empty.
Qed.

Lemma frequent_cell_ok stream name cap :
  cell_ok stream (occurrences name stream) cap
          (FrequentCounter.query name (frequent_pass cap stream)).
Proof.
  unfold cell_ok. destruct (decide _) as [Hroom|_].
  - unfold FrequentCounter.query. rewrite frequent_exact_when_room.
    + apply exact_query_run.
    + by rewrite exact_size_distinct.
  - split; [apply frequent_query_nonneg|].
    pose proof (frequent_process_all_query stream (FrequentCounter.init cap) name) as H.
    unfold FrequentCounter.query at 2 in H. simpl in H.
    rewrite lookup_empty in H. simpl in H. unfold frequent_pass. lia.
Qed.

(** X21: Table 2 of the harness. Fed the ranking of the baseline,
    [run_frequent_experiment] produces one row per ranked item and never
    fails on a missing capacity. A row carries the item, its real count,
    and one estimate per capacity of the sweep, in order: the estimate of a
    new counter of that capacity after one pass. Each estimate is between 0
    and the real count, and equal to it in the column of a capacity that is
    at least the number of distinct items of the stream. *)
Theorem run_frequent_experiment_table capacities stream :
  run_frequent_experiment capacities stream (run_exact_benchmark stream).1
  = (fun entry =>
       Returns (entry.1, entry.2,
                (fun cap => FrequentCounter.query entry.1 (frequent_pass cap stream))
                  <$> capacities))
      <$> (run_exact_benchmark stream).1
  /\ Forall (fun entry =>
               Forall (fun cap =>
                         cell_ok stream entry.2 cap
                           (FrequentCounter.query entry.1 (frequent_pass cap stream)))
                      capacities)
            (run_exact_benchmark stream).1.
Proof.
  split.
  - unfold run_frequent_experiment. apply list_fmap_ext.
    intros _ entry _. apply frequent_row_returns.
  - destruct (baseline_entries stream) as [_ Hentries].
    eapply Forall_impl; [exact Hentries|]. intros [name real] [_ Hreal].
    simpl in *. subst real. apply Forall_forall. intros cap _.
    apply frequent_cell_ok.
Qed.

End harness.

(** ** The Morris ranking *)

Section morris_ranking.
Implicit Types (n : Z) (morris : gmap string N).

Lemma estimated_counts_names morris :
  (MorrisCounter.estimated_counts morris).*1 = (map_to_list morris).*1.
Proof.
  unfold MorrisCounter.estimated_counts.
  induction (map_to_list morris).*1 as [|y l IH]; [done|].
  rewrite !fmap_cons, IH. done.
Qed.

(** X22: the pairs of a Morris ranking. [get_top_n] returns no item
    twice; each pair holds a tracked item with the estimate [query] returns
    for it, a number of the form [2^k - 1], which is never negative. *)
Theorem morris_top_n_entries n morris :
  NoDup (MorrisCounter.get_top_n n morris).*1
  /\ Forall (fun p => is_Some (morris !! p.1)
                      /\ p.2 = MorrisCounter.query p.1 morris
                      /\ p.2 = (2 ^ Z.of_N (MorrisCounter.exponent p.1 morris) - 1)%Z
                      /\ (0 <= p.2)%Z)
            (MorrisCounter.get_top_n n morris).
Proof.
  unfold MorrisCounter.get_top_n.
  destruct (slice_to_take n (Py.sorted (MorrisCounter.estimated_counts morris)))
    as (k & -> & _).
  split.
  - rewrite fmap_take.
    apply (sublist_NoDup _ (Py.sorted (MorrisCounter.estimated_counts morris)).*1);
      [|apply sublist_take].
    rewrite sorted_Permutation, estimated_counts_names. apply NoDup_fst_map_to_list.
  - apply Forall_forall. intros [x c] Hin. simpl.
    assert ((x, c) ∈ MorrisCounter.estimated_counts morris) as Hx.
    { rewrite <- sorted_Permutation.
      eapply elem_of_sublist; [exact Hin|apply sublist_take]. }
    apply estimated_counts_elem_of in Hx as [Htracked ->].
    split; [done|]. split; [done|]. split; [done|].
    unfold MorrisCounter.query.
    pose proof (Z.pow_pos_nonneg 2 (Z.of_N (MorrisCounter.exponent x morris))). lia.
Qed.

End morris_ranking.
